(** * The [require-take-until-destroyed] lint rule

    A shallow embedding of [lib/rules/require-take-until-destroyed.js]:
    the import tracker, the chain locator [findPipeCallBeforeSubscribe],
    the classifier [checkForTakeOperatorsInPipe] and the subscribe
    handler, followed by the properties the specification states about
    them. *)

From Stdlib Require Import String Ascii List Bool.
From stdpp Require Import base gmap strings.
Import ListNotations.

Local Open Scope string_scope.
Local Open Scope list_scope.
Set Warnings "-register-all".

(** ** A small fragment of JavaScript *)

(** A call either returns a value or throws.  The only exception that
    the rule can raise is the [TypeError] of a property read on
    [undefined] or [null]. *)
Inductive completion (A : Type) : Type :=
| Normal (a : A)
| TypeError.
Arguments Normal {A} a.
Arguments TypeError {A}.

Definition bind {A B} (c : completion A) (k : A -> completion B) : completion B :=
  match c with
  | Normal a => k a
  | TypeError => TypeError
  end.

Notation "'let!' x ':=' c 'in' k" := (bind c (fun x => k))
  (at level 10, x name, c at level 100, k at level 200).

(** [a && b] on completions: [b] is evaluated only when [a] is true. *)
Definition andThen (a b : completion bool) : completion bool :=
  match a with
  | Normal true => b
  | _ => a
  end.

(** [a || b] on completions: [b] is evaluated only when [a] is false. *)
Definition orElse (a b : completion bool) : completion bool :=
  match a with
  | Normal false => b
  | _ => a
  end.

Infix "&&&" := andThen (at level 40, left associativity).
Infix "|||" := orElse (at level 50, left associativity).

(** An ESTree node as the rule reads it: an object with a [type] tag and
    the fields the rule looks at.  A field that is absent, [undefined] or
    [null] is [None].  Names are strings of one-byte characters: a
    character stands for one UTF-16 code unit below 256, so the names
    of the model are the names written in Latin-1. *)
Inductive node : Type := mkNode {
  type : string;
  name : option string;
  callee : option node;
  object : option node;
  property : option node;
  arguments : option (list node)
}.

(** A JavaScript value that is a node, or [null]/[undefined]. *)
Definition value := option node.

(** Truthiness: objects are truthy, [null] and [undefined] are not. *)
Definition truthy (v : value) : bool :=
  match v with Some _ => true | None => false end.

(** [v.f]: reading a property of [undefined] or [null] throws. *)
Definition field {A} (f : node -> A) (v : value) : completion A :=
  match v with
  | Some n => Normal (f n)
  | None => TypeError
  end.

(** [s === 'lit'] where [s] may be [undefined]. *)
Definition strictEq (s : option string) (lit : string) : bool :=
  match s with
  | Some x => String.eqb x lit
  | None => false
  end.

(** [String.prototype.includes]. *)
Fixpoint str_includes (s sub : string) : bool :=
  String.prefix sub s ||
  match s with
  | EmptyString => false
  | String _ rest => str_includes rest sub
  end.

(** [s.includes('lit')] where [s] may be [undefined]: a method call on
    [undefined] throws. *)
Definition includes (s : option string) (lit : string) : completion bool :=
  match s with
  | Some x => Normal (str_includes x lit)
  | None => TypeError
  end.

(** A [Set] of strings; [has] with an [undefined] argument is false,
    since only strings are ever added. *)
Definition has (s : gset string) (v : option string) : bool :=
  match v with
  | Some x => bool_decide (x ∈ s)
  | None => false
  end.

(** [Array.prototype.some]: stops at the first element for which the
    callback returns true; an exception of the callback propagates. *)
Fixpoint some {A} (f : A -> completion bool) (l : list A) : completion bool :=
  match l with
  | [] => Normal false
  | x :: rest =>
      match f x with
      | Normal true => Normal true
      | Normal false => some f rest
      | TypeError => TypeError
      end
  end.

(** Smart constructors for the node shapes a parser produces. *)
Definition Identifier (x : string) : node :=
  mkNode "Identifier" (Some x) None None None None.
Definition CallExpression (f : node) (args : list node) : node :=
  mkNode "CallExpression" None (Some f) None None (Some args).
Definition MemberExpression (o p : node) : node :=
  mkNode "MemberExpression" None None (Some o) (Some p) None.
Definition ThisExpression : node :=
  mkNode "ThisExpression" None None None None None.
Definition ArrowFunctionExpression : node :=
  mkNode "ArrowFunctionExpression" None None None None None.
Definition Literal : node :=
  mkNode "Literal" None None None None None.

(** ** Import declarations *)

(** An import specifier: [ImportSpecifier] has [imported] and [local];
    [ImportDefaultSpecifier] and [ImportNamespaceSpecifier] have only
    [local], which is always an identifier (its name is stored). *)
Record specifier : Type := mkSpecifier {
  spec_type : string;
  imported : option node;
  local : string
}.

(** [source] is the string value of the module specifier. *)
Record importDeclaration : Type := mkImport {
  source : string;
  specifiers : list specifier
}.

(** [import { e as l } from ...] *)
Definition ImportSpecifier (e l : string) : specifier :=
  mkSpecifier "ImportSpecifier" (Some (Identifier e)) l.
Definition ImportDefaultSpecifier (l : string) : specifier :=
  mkSpecifier "ImportDefaultSpecifier" None l.
Definition ImportNamespaceSpecifier (l : string) : specifier :=
  mkSpecifier "ImportNamespaceSpecifier" None l.

(** ** The rule *)

Module Rule.

(** The two sets that [create] allocates for one file. *)
Record state : Type := mkState {
  takeUntilDestroyedAliases : gset string;
  rxjsTakeOperatorAliases : gset string
}.

(** [rxjsTakeOperators] is never written after its creation; the alias
    set starts as a copy of it. *)
Definition rxjsTakeOperators : gset string :=
  {[ "takeUntil"; "takeWhile"; "take"; "takeLast" ]}.

Definition create : state :=
  {| takeUntilDestroyedAliases := {[ "takeUntilDestroyed" ]};
     rxjsTakeOperatorAliases := rxjsTakeOperators |}.

Definition messageId : string := "missingTakeUntilDestroyed".

(** What [context.report] receives. *)
Record diagnostic : Type := mkDiagnostic {
  diag_node : node;
  diag_messageId : string
}.

Definition report (n : node) : diagnostic := mkDiagnostic n messageId.

(** The callback of the first [forEach]. *)
Definition addDestroyAlias (s : gset string) (sp : specifier) : gset string :=
  if String.eqb (spec_type sp) "ImportSpecifier"
     && match imported sp with
        | Some i => strictEq (name i) "takeUntilDestroyed"
        | None => false
        end
  then {[ local sp ]} ∪ s
  else s.

(** The callback of the second [forEach]. *)
Definition addTakeAlias (s : gset string) (sp : specifier) : gset string :=
  if String.eqb (spec_type sp) "ImportSpecifier"
     && match imported sp with
        | Some i => has rxjsTakeOperators (name i)
        | None => false
        end
  then {[ local sp ]} ∪ s
  else s.

(** The [ImportDeclaration] handler. *)
Definition ImportDeclaration (st : state) (n : importDeclaration) : state :=
  let d :=
    if String.eqb (source n) "@angular/core/rxjs-interop"
    then fold_left addDestroyAlias (specifiers n) (takeUntilDestroyedAliases st)
    else takeUntilDestroyedAliases st in
  let t :=
    if String.eqb (source n) "rxjs" || String.eqb (source n) "rxjs/operators"
    then fold_left addTakeAlias (specifiers n) (rxjsTakeOperatorAliases st)
    else rxjsTakeOperatorAliases st in
  mkState d t.

(** [findPipeCallBeforeSubscribe]. *)
Definition findPipeCallBeforeSubscribe (objectExpr : value) : completion value :=
  if negb (truthy objectExpr) then Normal None
  else
    let! b :=
      (let! t := field type objectExpr in Normal (String.eqb t "CallExpression"))
      &&& (let! c := field callee objectExpr in Normal (truthy c))
      &&& (let! c := field callee objectExpr in
           let! t := field type c in Normal (String.eqb t "MemberExpression"))
      &&& (let! c := field callee objectExpr in
           let! p := field property c in Normal (truthy p))
      &&& (let! c := field callee objectExpr in
           let! p := field property c in
           let! x := field name p in Normal (strictEq x "pipe")) in
    if b then Normal objectExpr else Normal None.

(** The arrow function that [checkForTakeOperatorsInPipe] passes to
    [some]. *)
Definition isTakeOperator (takeUntilDestroyedAliases rxjsTakeOperatorAliases : gset string)
    (arg : node) : completion bool :=
  let a : value := Some arg in
  let! direct :=
    (let! t := field type a in Normal (String.eqb t "CallExpression"))
    &&& (let! c := field callee a in Normal (truthy c))
    &&& (let! c := field callee a in
         let! t := field type c in Normal (String.eqb t "Identifier"))
    &&& (let! c := field callee a in
         let! x := field name c in
         Normal (has takeUntilDestroyedAliases x || has rxjsTakeOperatorAliases x)) in
  if direct then Normal true
  else
    let! t := field type a in
    if String.eqb t "Identifier" then
      let! x := field name a in
      includes x "destroy" ||| includes x "Destroy"
      ||| includes x "unsubscribe" ||| includes x "Unsubscribe"
      ||| includes x "take"
    else
      let! member :=
        (let! t := field type a in Normal (String.eqb t "CallExpression"))
        &&& (let! c := field callee a in Normal (truthy c))
        &&& (let! c := field callee a in
             let! t := field type c in Normal (String.eqb t "MemberExpression"))
        &&& (let! c := field callee a in
             let! p := field property c in Normal (truthy p))
        &&& (let! c := field callee a in
             let! p := field property c in
             let! x := field name p in
             Normal (has takeUntilDestroyedAliases x || has rxjsTakeOperatorAliases x)) in
      if member then Normal true else Normal false.

(** [!pipeCall || !pipeCall.arguments || !pipeCall.arguments.length]:
    an array is truthy, and its length is falsy when it is 0. *)
Definition noArguments (pipeCall : value) : completion bool :=
  Normal (negb (truthy pipeCall))
  ||| (let! args := field arguments pipeCall in
       Normal (negb (bool_decide (is_Some args))))
  ||| (let! args := field arguments pipeCall in
       match args with
       | Some l => Normal (Nat.eqb (length l) 0)
       | None => TypeError
       end).

(** [checkForTakeOperatorsInPipe]. *)
Definition checkForTakeOperatorsInPipe (pipeCall : value)
    (takeUntilDestroyedAliases rxjsTakeOperatorAliases : gset string) : completion bool :=
  let! e := noArguments pipeCall in
  if e then Normal false
  else
    let! args := field arguments pipeCall in
    match args with
    | Some l => some (isTakeOperator takeUntilDestroyedAliases rxjsTakeOperatorAliases) l
    | None => TypeError
    end.

(** [checkForTakeUntilDestroyedInPipe], kept for backward compatibility. *)
Definition checkForTakeUntilDestroyedInPipe (pipeCall : value)
    (takeUntilDestroyedAliases : gset string) : completion bool :=
  checkForTakeOperatorsInPipe pipeCall takeUntilDestroyedAliases ∅.

(** The handler of the selector
    [CallExpression[callee.property.name="subscribe"]]. *)
Definition onSubscribe (st : state) (n : node) : completion (list diagnostic) :=
  let! o := field object (callee n) in
  let! pipeCall := findPipeCallBeforeSubscribe o in
  if negb (truthy pipeCall) then Normal [report n]
  else
    let! hasTakeOperator :=
      checkForTakeOperatorsInPipe pipeCall
        (takeUntilDestroyedAliases st) (rxjsTakeOperatorAliases st) in
    if negb hasTakeOperator then Normal [report n] else Normal [].

(** The selector: the attribute path is followed as far as it exists. *)
Definition isSubscribeCall (n : node) : bool :=
  String.eqb (type n) "CallExpression"
  && match callee n with
     | Some c =>
         match property c with
         | Some p => strictEq (name p) "subscribe"
         | None => false
         end
     | None => false
     end.

(** *** The traversal that drives the rule

    The lint engine calls [create] once per file and then walks the
    tree in document order, calling the import handler on every import
    declaration and the subscribe handler on every node the selector
    matches.  An exception of a handler aborts the walk. *)
Inductive visited : Type :=
| VisitImport (d : importDeclaration)
| VisitNode (n : node).

Definition visit (st : state) (v : visited) : completion (state * list diagnostic) :=
  match v with
  | VisitImport d => Normal (ImportDeclaration st d, [])
  | VisitNode n =>
      if isSubscribeCall n
      then let! ds := onSubscribe st n in Normal (st, ds)
      else Normal (st, [])
  end.

Fixpoint traverse (st : state) (vs : list visited) : completion (state * list diagnostic) :=
  match vs with
  | [] => Normal (st, [])
  | v :: rest =>
      let! r := visit st v in
      let! r' := traverse (fst r) rest in
      Normal (fst r', snd r ++ snd r')
  end.

Definition lint (vs : list visited) : completion (state * list diagnostic) :=
  traverse create vs.

End Rule.

(** ** The sets as objects in a store

    [create] allocates its three [Set] objects anew on every call, and
    the handlers it returns mutate two of them through the variables
    they capture.  This module keeps the objects in a store and the
    variables as references, so that what one pass does to the objects
    of another can be stated; [Rule] above is the same code with the two
    mutable sets passed as a state. *)
Module Store.

(** The [Set] objects allocated so far; a reference is a position. *)
Abbreviation store := (list (gset string)).
Abbreviation ref := nat.

(** [new Set(elements)]. *)
Definition new_Set (h : store) (elements : gset string) : store * ref :=
  (h ++ [elements], length h).

(** The members of the object behind a reference. *)
Definition members (h : store) (r : ref) : gset string :=
  default ∅ (h !! r).

(** [r.add(x)]. *)
Definition add (h : store) (r : ref) (x : string) : store :=
  alter (fun s => {[ x ]} ∪ s) r h.

(** The variables of [create] that the handlers capture. *)
Record closure : Type := mkClosure {
  takeUntilDestroyedAliases : ref;
  rxjsTakeOperators : ref;
  rxjsTakeOperatorAliases : ref
}.

Definition create (h : store) : store * closure :=
  let '(h1, a) := new_Set h {[ "takeUntilDestroyed" ]} in
  let '(h2, b) := new_Set h1 {[ "takeUntil"; "takeWhile"; "take"; "takeLast" ]} in
  let '(h3, c) := new_Set h2 (members h2 b) in
  (h3, mkClosure a b c).

Definition addDestroyAlias (c : closure) (h : store) (sp : specifier) : store :=
  if String.eqb (spec_type sp) "ImportSpecifier"
     && match imported sp with
        | Some i => strictEq (name i) "takeUntilDestroyed"
        | None => false
        end
  then add h (takeUntilDestroyedAliases c) (local sp)
  else h.

Definition addTakeAlias (c : closure) (h : store) (sp : specifier) : store :=
  if String.eqb (spec_type sp) "ImportSpecifier"
     && match imported sp with
        | Some i => has (members h (rxjsTakeOperators c)) (name i)
        | None => false
        end
  then add h (rxjsTakeOperatorAliases c) (local sp)
  else h.

Definition ImportDeclaration (c : closure) (h : store) (n : importDeclaration) : store :=
  let h1 :=
    if String.eqb (source n) "@angular/core/rxjs-interop"
    then fold_left (addDestroyAlias c) (specifiers n) h
    else h in
  if String.eqb (source n) "rxjs" || String.eqb (source n) "rxjs/operators"
  then fold_left (addTakeAlias c) (specifiers n) h1
  else h1.

(** The two mutable sets of a closure, as the state of [Rule]. *)
Definition view (c : closure) (h : store) : Rule.state :=
  Rule.mkState (members h (takeUntilDestroyedAliases c))
               (members h (rxjsTakeOperatorAliases c)).

(** The three variables hold three different live objects, and the
    constant set holds the four operator names. *)
Definition valid (c : closure) (h : store) : Prop :=
  takeUntilDestroyedAliases c < length h /\
  rxjsTakeOperators c < length h /\
  rxjsTakeOperatorAliases c < length h /\
  takeUntilDestroyedAliases c <> rxjsTakeOperators c /\
  takeUntilDestroyedAliases c <> rxjsTakeOperatorAliases c /\
  rxjsTakeOperators c <> rxjsTakeOperatorAliases c /\
  members h (rxjsTakeOperators c) = Rule.rxjsTakeOperators.

End Store.

(** ** The variant of the rule that carries a fixer

    The repository holds a second copy of the rule (the one with
    [fixable: 'code']).  Its classifier differs from the one above in
    the bare-identifier branch only: the name is lower-cased first. *)
Module FixableRule.

(** The lower-case mapping of Unicode on the code units below 256: the
    letters [A]-[Z] (65-90), [U+00C0]-[U+00D6] (192-214) and
    [U+00D8]-[U+00DE] (216-222) move up by 32; the multiplication sign
    (215), the sharp s (223) and every other unit stay. *)
Definition lower_ascii (c : ascii) : ascii :=
  let n := nat_of_ascii c in
  if (Nat.leb 65 n && Nat.leb n 90)
     || (Nat.leb 192 n && Nat.leb n 214)
     || (Nat.leb 216 n && Nat.leb n 222)
  then ascii_of_nat (n + 32) else c.

(** [String.prototype.toLowerCase] on strings of code units below 256,
    where it maps unit by unit (the rules that depend on context or give
    several units concern characters from [U+0130] on).  Names with a
    code unit from 256 on, such as the Kelvin sign [U+212A] that
    lower-cases to [k], are not names of the model. *)
Fixpoint str_toLowerCase (s : string) : string :=
  match s with
  | EmptyString => EmptyString
  | String c rest => String (lower_ascii c) (str_toLowerCase rest)
  end.

(** [s.toLowerCase()] where [s] may be [undefined]. *)
Definition toLowerCase (s : option string) : completion (option string) :=
  match s with
  | Some x => Normal (Some (str_toLowerCase x))
  | None => TypeError
  end.

Definition isTakeOperator (takeUntilDestroyedAliases rxjsTakeOperatorAliases : gset string)
    (arg : node) : completion bool :=
  let a : value := Some arg in
  let! direct :=
    (let! t := field type a in Normal (String.eqb t "CallExpression"))
    &&& (let! c := field callee a in Normal (truthy c))
    &&& (let! c := field callee a in
         let! t := field type c in Normal (String.eqb t "Identifier"))
    &&& (let! c := field callee a in
         let! x := field name c in
         Normal (has takeUntilDestroyedAliases x || has rxjsTakeOperatorAliases x)) in
  if direct then Normal true
  else
    let! t := field type a in
    if String.eqb t "Identifier" then
      let! x := field name a in
      let! lowerName := toLowerCase x in
      includes lowerName "destroy" ||| includes lowerName "unsubscribe"
      ||| includes lowerName "take"
    else
      let! member :=
        (let! t := field type a in Normal (String.eqb t "CallExpression"))
        &&& (let! c := field callee a in Normal (truthy c))
        &&& (let! c := field callee a in
             let! t := field type c in Normal (String.eqb t "MemberExpression"))
        &&& (let! c := field callee a in
             let! p := field property c in Normal (truthy p))
        &&& (let! c := field callee a in
             let! p := field property c in
             let! x := field name p in
             Normal (has takeUntilDestroyedAliases x || has rxjsTakeOperatorAliases x)) in
      if member then Normal true else Normal false.

Definition checkForTakeOperatorsInPipe (pipeCall : value)
    (takeUntilDestroyedAliases rxjsTakeOperatorAliases : gset string) : completion bool :=
  let! e := Rule.noArguments pipeCall in
  if e then Normal false
  else
    let! args := field arguments pipeCall in
    match args with
    | Some l => some (isTakeOperator takeUntilDestroyedAliases rxjsTakeOperatorAliases) l
    | None => TypeError
    end.

End FixableRule.

Import Rule.

(** ** Vocabulary of the specification *)

(** The expression to the left of [.subscribe]. *)
Definition receiver (n : node) : value :=
  match callee n with
  | Some c => object c
  | None => None
  end.

(** A call of the form [<anything>.pipe(...)]. *)
Definition isPipeCall (p : node) : bool :=
  String.eqb (type p) "CallExpression"
  && match callee p with
     | Some c =>
         String.eqb (type c) "MemberExpression"
         && match property c with
            | Some q => strictEq (name q) "pipe"
            | None => false
            end
     | None => false
     end.

(** The argument list of a call; empty when the field is absent. *)
Definition argumentsOf (p : node) : list node :=
  match arguments p with
  | Some l => l
  | None => []
  end.

(** Membership in one of the two alias sets. *)
Definition known (d t : gset string) (x : option string) : bool :=
  has d x || has t x.

(** Rule 1: a direct call [f(...)] of a known name. *)
Definition directCall (d t : gset string) (a : node) : bool :=
  String.eqb (type a) "CallExpression"
  && match callee a with
     | Some c => String.eqb (type c) "Identifier" && known d t (name c)
     | None => false
     end.

(** Rule 2: a call [o.f(...)] whose property is a known name. *)
Definition memberCall (d t : gset string) (a : node) : bool :=
  String.eqb (type a) "CallExpression"
  && match callee a with
     | Some c =>
         String.eqb (type c) "MemberExpression"
         && match property c with
            | Some q => known d t (name q)
            | None => false
            end
     | None => false
     end.

(** The name test of rule 3, as the rule file writes it. *)
Definition operatorLikeName (x : string) : bool :=
  str_includes x "destroy" || str_includes x "Destroy"
  || str_includes x "unsubscribe" || str_includes x "Unsubscribe"
  || str_includes x "take".

(** Rule 3: a bare identifier with an operator-like name. *)
Definition heuristicName (a : node) : bool :=
  String.eqb (type a) "Identifier"
  && match name a with
     | Some x => operatorLikeName x
     | None => false
     end.

Definition matchesRule (d t : gset string) (a : node) : bool :=
  directCall d t a || heuristicName a || memberCall d t a.

(** The name test of rule 3 as the specification words it: the name,
    lower-cased, contains one of the three words. *)
Definition containsIgnoringCase (x : string) : bool :=
  let l := FixableRule.str_toLowerCase x in
  str_includes l "destroy" || str_includes l "unsubscribe" || str_includes l "take".

(** ESTree gives every [Identifier] node a [name]. *)
Definition identOk (a : node) : Prop :=
  type a = "Identifier" -> is_Some (name a).

(** The arguments of the call to the left of [.subscribe], if any. *)
Definition pipeArguments (n : node) : list node :=
  match receiver n with
  | Some p => argumentsOf p
  | None => []
  end.

(** A specifier that binds the export [e] under a local name. *)
Definition binds (sp : specifier) (e l : string) : Prop :=
  spec_type sp = "ImportSpecifier" /\
  (exists i, imported sp = Some i /\ name i = Some e) /\
  local sp = l.

(** The order on states: both sets are included. *)
Definition state_le (st st' : state) : Prop :=
  takeUntilDestroyedAliases st ⊆ takeUntilDestroyedAliases st' /\
  rxjsTakeOperatorAliases st ⊆ rxjsTakeOperatorAliases st'.

(** A direct call [l(...)]. *)
Definition directCallTo (l : string) (a : node) : Prop :=
  type a = "CallExpression" /\
  exists f, callee a = Some f /\ type f = "Identifier" /\ name f = Some l.

(** The same node with another argument list. *)
Definition withArguments (n : node) (args : option (list node)) : node :=
  mkNode (type n) (name n) (callee n) (object n) (property n) args.

(** The receiver of the subscribe call is not a pipe call. *)
Definition noPipeCall (n : node) : Prop :=
  forall p, receiver n = Some p -> isPipeCall p = false.

(** The receiver is a pipe call on none of whose arguments the callback
    of the classifier answers true. *)
Definition pipeWithoutMatch (st : state) (n : node) : Prop :=
  exists p, receiver n = Some p /\ isPipeCall p = true /\
    forall a, In a (argumentsOf p) ->
      matchesRule (takeUntilDestroyedAliases st) (rxjsTakeOperatorAliases st) a = false.

(** Example nodes. *)
Definition this_observable : node :=
  MemberExpression ThisExpression (Identifier "observable").
Definition pipeOf (recv : node) (args : list node) : node :=
  CallExpression (MemberExpression recv (Identifier "pipe")) args.
Definition subscribeOf (recv : node) (args : list node) : node :=
  CallExpression (MemberExpression recv (Identifier "subscribe")) args.
Definition call (f : string) (args : list node) : node :=
  CallExpression (Identifier f) args.

(** The module and export pairings under which a specifier registers an
    alias. *)
Definition registers (src : string) (sp : specifier) : Prop :=
  (src = "@angular/core/rxjs-interop" /\
   exists l, binds sp "takeUntilDestroyed" l) \/
  ((src = "rxjs" \/ src = "rxjs/operators") /\
   exists e l, In e ["takeUntil"; "takeWhile"; "take"; "takeLast"] /\ binds sp e l).

(** The exported name of a specifier, when it has one. *)
Definition importedName (sp : specifier) : option string :=
  match imported sp with
  | Some i => name i
  | None => None
  end.

(** The scenarios of the specification:
    [import { takeUntilDestroyed as tud } from '@angular/core/rxjs-interop']
    and [this.observable.pipe(map(f), tud()).subscribe(cb)], and the
    same with [import { takeUntil as tu } from 'rxjs']. *)
Definition import_tud : importDeclaration :=
  mkImport "@angular/core/rxjs-interop" [ImportSpecifier "takeUntilDestroyed" "tud"].
Definition import_tu : importDeclaration :=
  mkImport "rxjs" [ImportSpecifier "takeUntil" "tu"].
Definition map_f : node := call "map" [ArrowFunctionExpression].
Definition site_with (operator : node) : node :=
  subscribeOf (pipeOf this_observable [map_f; operator]) [ArrowFunctionExpression].
Definition site_plain : node :=
  subscribeOf this_observable [ArrowFunctionExpression].
Definition site_empty_pipe : node :=
  subscribeOf (pipeOf this_observable []) [ArrowFunctionExpression].

(** The diagnostics of a pass. *)
Definition diagnosticsOf (vs : list visited) : completion (list diagnostic) :=
  let! r := lint vs in Normal (snd r).

(** ** The original rule

    The first version of the rule (the copy that still calls
    [context.getAncestors()]).  It tracks the destroy aliases only, and
    skips subscribe calls under a [return] statement or inside the
    arguments of another subscribe call.  Its import callback and its
    [findPipeCallBeforeSubscribe] are the same text as in the rule file,
    so [Rule.addDestroyAlias] and [Rule.findPipeCallBeforeSubscribe]
    stand for them. *)
Module OriginalRule.

Definition create : gset string := {[ "takeUntilDestroyed" ]}.

Definition ImportDeclaration (takeUntilDestroyedAliases : gset string)
    (n : importDeclaration) : gset string :=
  if String.eqb (source n) "@angular/core/rxjs-interop"
  then fold_left addDestroyAlias (specifiers n) takeUntilDestroyedAliases
  else takeUntilDestroyedAliases.

(** The arrow function of [ancestors.some] in the handler. *)
Definition isReturnStatement (ancestor : node) : completion bool :=
  let! t := field type (Some ancestor) in Normal (String.eqb t "ReturnStatement").

(** The arrow function of [isInsideSubscriptionCallback]. *)
Definition isSubscribeAncestor (ancestor : node) : completion bool :=
  let a : value := Some ancestor in
  (let! t := field type a in Normal (String.eqb t "CallExpression"))
  &&& (let! c := field callee a in Normal (truthy c))
  &&& (let! c := field callee a in
       let! t := field type c in Normal (String.eqb t "MemberExpression"))
  &&& (let! c := field callee a in
       let! p := field property c in Normal (truthy p))
  &&& (let! c := field callee a in
       let! p := field property c in
       let! x := field name p in Normal (strictEq x "subscribe")).

(** [isInsideSubscriptionCallback]; the first parameter is not read. *)
Definition isInsideSubscriptionCallback (n : node) (ancestors : list node)
    : completion bool :=
  some isSubscribeAncestor ancestors.

(** The arrow function that [checkForTakeUntilDestroyedInPipe] passes to
    [some]. *)
Definition isTakeUntilDestroyed (takeUntilDestroyedAliases : gset string)
    (arg : node) : completion bool :=
  let a : value := Some arg in
  let! direct :=
    (let! t := field type a in Normal (String.eqb t "CallExpression"))
    &&& (let! c := field callee a in Normal (truthy c))
    &&& (let! c := field callee a in
         let! t := field type c in Normal (String.eqb t "Identifier"))
    &&& (let! c := field callee a in
         let! x := field name c in Normal (has takeUntilDestroyedAliases x)) in
  if direct then Normal true
  else
    let! t := field type a in
    if String.eqb t "Identifier" then
      let! x := field name a in
      includes x "destroy" ||| includes x "Destroy"
      ||| includes x "unsubscribe" ||| includes x "Unsubscribe"
    else
      let! member :=
        (let! t := field type a in Normal (String.eqb t "CallExpression"))
        &&& (let! c := field callee a in Normal (truthy c))
        &&& (let! c := field callee a in
             let! t := field type c in Normal (String.eqb t "MemberExpression"))
        &&& (let! c := field callee a in
             let! p := field property c in Normal (truthy p))
        &&& (let! c := field callee a in
             let! p := field property c in
             let! x := field name p in Normal (has takeUntilDestroyedAliases x)) in
      if member then Normal true else Normal false.

(** The original [checkForTakeUntilDestroyedInPipe]. *)
Definition checkForTakeUntilDestroyedInPipe (pipeCall : value)
    (takeUntilDestroyedAliases : gset string) : completion bool :=
  let! e := noArguments pipeCall in
  if e then Normal false
  else
    let! args := field arguments pipeCall in
    match args with
    | Some l => some (isTakeUntilDestroyed takeUntilDestroyedAliases) l
    | None => TypeError
    end.

(** The subscribe handler; [ancestors] is what [context.getAncestors()]
    returns for the node. *)
Definition onSubscribe (takeUntilDestroyedAliases : gset string)
    (ancestors : list node) (n : node) : completion (list diagnostic) :=
  let! inReturn := some isReturnStatement ancestors in
  if inReturn then Normal []
  else
    let! nested := isInsideSubscriptionCallback n ancestors in
    if nested then Normal []
    else
      let! o := field object (callee n) in
      let! pipeCall := findPipeCallBeforeSubscribe o in
      if negb (truthy pipeCall) then Normal [report n]
      else
        let! hasTakeUntilDestroyed :=
          checkForTakeUntilDestroyedInPipe pipeCall takeUntilDestroyedAliases in
        if negb hasTakeUntilDestroyed then Normal [report n] else Normal [].

End OriginalRule.

(** ** The subscribe handler of the rule with a fixer

    Node positions are not part of [node]; the handler below takes the
    [range] of [node.callee.object] as a parameter (when a pipe call is
    found it is that same node, so [pipeCall.range] is the same pair).
    The source text is the list of its UTF-16 code units, which is what
    ranges count.  [fixer.replaceText(node, text)] and
    [fixer.insertTextBeforeRange(range, text)] build the records
    [{range: node.range, text}] and [{range: [range[0], range[0]], text}];
    [sourceCode.getText(node)] is the slice of the text at the node's
    range.  The first fix also computes [hasImport], which nothing
    reads; it is left out. *)
Module Fixer.

(** The code units of a string literal of the rule. *)
Definition codeUnits (s : string) : list N :=
  map N_of_ascii (list_ascii_of_string s).

Record fixObject : Type := mkFix {
  fix_range : Z * Z;
  fix_text : list N
}.

Record diagnostic : Type := mkDiagnostic {
  diag_node : node;
  diag_messageId : string;
  diag_fix : fixObject
}.

(** [text.slice(a, b)] for offsets that are not negative: the units from
    [a] up to [b], as far as the text goes. *)
Definition slice (text : list N) (a b : nat) : list N :=
  take (b - a) (drop a text).

Definition getText (text : list N) (range : nat * nat) : list N :=
  slice text (fst range) (snd range).

Definition replaceText (range : nat * nat) (t : list N) : fixObject :=
  mkFix (Z.of_nat (fst range), Z.of_nat (snd range)) t.

Definition insertTextBeforeRange (range : Z * Z) (t : list N) : fixObject :=
  mkFix (fst range, fst range) t.

(** The fix of the report made when no pipe call is found. *)
Definition fixNoPipe (text : list N) (objectRange : nat * nat) : fixObject :=
  let objectText := getText text objectRange in
  replaceText objectRange (objectText ++ codeUnits ".pipe(takeUntilDestroyed())").

(** [pipeCall.arguments && pipeCall.arguments.length > 0]. *)
Definition hasArguments (pipeCall : node) : bool :=
  match arguments pipeCall with
  | Some l => Nat.ltb 0 (length l)
  | None => false
  end.

(** The line feed of the escape [\n]. *)
Definition newline : list N := [10%N].

(** The fix of the report made when the pipe call has no operator. *)
Definition fixPipe (pipeCall : node) (pipeRange : nat * nat) : fixObject :=
  let pipeCallEnd := (Z.of_nat (snd pipeRange) - 1)%Z in
  if negb (hasArguments pipeCall)
  then insertTextBeforeRange (pipeCallEnd, pipeCallEnd)
         (codeUnits "takeUntilDestroyed()")
  else insertTextBeforeRange (pipeCallEnd, pipeCallEnd)
         (codeUnits "," ++ newline
          ++ codeUnits "                            takeUntilDestroyed()").

Definition onSubscribe (text : list N) (objectRange : nat * nat)
    (st : state) (n : node) : completion (list diagnostic) :=
  let! o := field object (callee n) in
  let! pipeCall := findPipeCallBeforeSubscribe o in
  match pipeCall with
  | None => Normal [mkDiagnostic n messageId (fixNoPipe text objectRange)]
  | Some p =>
      let! hasTakeOperator :=
        FixableRule.checkForTakeOperatorsInPipe pipeCall
          (takeUntilDestroyedAliases st) (rxjsTakeOperatorAliases st) in
      if negb hasTakeOperator
      then Normal [mkDiagnostic n messageId (fixPipe p objectRange)]
      else Normal []
  end.

(** What applying a fix means: the units in the range are replaced by
    the text of the fix.  Defined for ranges inside the source. *)
Definition applyFix (text : list N) (f : fixObject) : list N :=
  let a := Z.to_nat (fst (fix_range f)) in
  let b := Z.to_nat (snd (fix_range f)) in
  slice text 0 a ++ fix_text f ++ slice text b (length text).

End Fixer.

(** ** More vocabulary *)

(** A call [o.l(...)] through a member access. *)
Definition memberCallTo (l : string) (a : node) : Prop :=
  type a = "CallExpression" /\
  exists c q, callee a = Some c /\ type c = "MemberExpression" /\
              property c = Some q /\ name q = Some l.

(** Rule 3 as the rule with a fixer tests it. *)
Definition heuristicNameIgnoringCase (a : node) : bool :=
  String.eqb (type a) "Identifier"
  && match name a with
     | Some x => containsIgnoringCase x
     | None => false
     end.

Definition matchesFixableRule (d t : gset string) (a : node) : bool :=
  directCall d t a || heuristicNameIgnoringCase a || memberCall d t a.

(** The three match rules as the specification gives them: a direct
    call of a known name, a call through a member access whose property
    is a known name, a bare identifier whose name contains [destroy],
    [unsubscribe] or [take] when case is ignored. *)
Definition matchesSpecifiedRule (d t : gset string) (a : node) : bool :=
  directCall d t a || memberCall d t a || heuristicNameIgnoringCase a.

(** The receiver is a pipe call none of whose arguments matches one of
    the three specified rules. *)
Definition pipeWithoutOperator (st : state) (n : node) : Prop :=
  exists p, receiver n = Some p /\ isPipeCall p = true /\
    forall a, In a (argumentsOf p) ->
      matchesSpecifiedRule (takeUntilDestroyedAliases st)
                           (rxjsTakeOperatorAliases st) a = false.

(** The site [this.observable.pipe(firstTake).subscribe(() => ...)]. *)
Definition site_firstTake : node :=
  subscribeOf (pipeOf this_observable [Identifier "firstTake"])
              [ArrowFunctionExpression].

(** The name test of the original rule. *)
Definition originalName (x : string) : bool :=
  str_includes x "destroy" || str_includes x "Destroy"
  || str_includes x "unsubscribe" || str_includes x "Unsubscribe".

Definition originalHeuristic (a : node) : bool :=
  String.eqb (type a) "Identifier"
  && match name a with
     | Some x => originalName x
     | None => false
     end.

Definition matchesOriginalRule (d : gset string) (a : node) : bool :=
  directCall d ∅ a || originalHeuristic a || memberCall d ∅ a.

(** A node tagged [Identifier] without a name. *)
Definition nameless (a : node) : bool :=
  String.eqb (type a) "Identifier" && negb (bool_decide (is_Some (name a))).

(** The arguments of a value that may be a pipe call. *)
Definition argumentsOfValue (v : value) : list node :=
  match v with
  | Some p => argumentsOf p
  | None => []
  end.

(** An ancestor for which the original rule skips the call site. *)
Definition skipsUnder (ancestor : node) : bool :=
  String.eqb (type ancestor) "ReturnStatement"
  || (String.eqb (type ancestor) "CallExpression"
      && match callee ancestor with
         | Some c =>
             String.eqb (type c) "MemberExpression"
             && match property c with
                | Some q => strictEq (name q) "subscribe"
                | None => false
                end
         | None => false
         end).

(** The subscribe call sites of a traversal, in visiting order. *)
Fixpoint subscribeSites (vs : list visited) : list node :=
  match vs with
  | [] => []
  | VisitImport _ :: rest => subscribeSites rest
  | VisitNode n :: rest =>
      if isSubscribeCall n then n :: subscribeSites rest else subscribeSites rest
  end.

(** The import declarations of a traversal. *)
Fixpoint importsOf (vs : list visited) : list importDeclaration :=
  match vs with
  | [] => []
  | VisitImport d :: rest => d :: importsOf rest
  | VisitNode _ :: rest => importsOf rest
  end.

(** An import declaration gives [l] as a destroy alias, or as a take
    alias. *)
Definition givesDestroyAlias (imp : importDeclaration) (l : string) : Prop :=
  source imp = "@angular/core/rxjs-interop" /\
  exists sp, In sp (specifiers imp) /\ binds sp "takeUntilDestroyed" l.

Definition givesTakeAlias (imp : importDeclaration) (l : string) : Prop :=
  (source imp = "rxjs" \/ source imp = "rxjs/operators") /\
  exists sp e, In sp (specifiers imp) /\
    In e ["takeUntil"; "takeWhile"; "take"; "takeLast"] /\ binds sp e l.

(** ** Equations of the embedded functions *)

Section Equations.

Variables d t : gset string.

Lemma findPipeCallBeforeSubscribe_eq (v : value) :
  findPipeCallBeforeSubscribe v =
  Normal (match v with
          | Some p => if isPipeCall p then Some p else None
          | None => None
          end).
Proof.
  destruct v as [[ty nm [c|] ob pr ar]|]; cbn; try reflexivity.
  - unfold isPipeCall; cbn.
    destruct (String.eqb ty "CallExpression"); cbn; [|reflexivity].
    destruct (String.eqb (type c) "MemberExpression"); cbn; [|reflexivity].
    destruct (property c) as [q|]; cbn; [|reflexivity].
    destruct (strictEq (name q) "pipe"); reflexivity.
  - unfold isPipeCall; cbn.
    destruct (String.eqb ty "CallExpression"); reflexivity.
Qed.

Lemma isTakeOperator_eq (a : node) :
  isTakeOperator d t a =
  if String.eqb (type a) "Identifier" && negb (bool_decide (is_Some (name a)))
  then TypeError
  else Normal (matchesRule d t a).
Proof.
  destruct a as [ty nm c ob pr ar].
  unfold isTakeOperator, matchesRule, directCall, heuristicName, memberCall, known.
  cbn.
  destruct (String.eqb_spec ty "CallExpression") as [->|Hc]; cbn.
  - destruct c as [c|]; cbn; [|reflexivity].
    destruct (String.eqb (type c) "Identifier"); cbn.
    + destruct (has d (name c) || has t (name c)); cbn; [reflexivity|].
      destruct (String.eqb (type c) "MemberExpression"); cbn; [|reflexivity].
      destruct (property c) as [q|]; cbn; [|reflexivity].
      destruct (has d (name q) || has t (name q)); reflexivity.
    + destruct (String.eqb (type c) "MemberExpression"); cbn; [|reflexivity].
      destruct (property c) as [q|]; cbn; [|reflexivity].
      destruct (has d (name q) || has t (name q)); reflexivity.
  - destruct (String.eqb ty "Identifier"); cbn; [|reflexivity].
    destruct nm as [x|]; cbn; [|reflexivity].
    unfold operatorLikeName.
    destruct (str_includes x "destroy"); cbn; [reflexivity|].
    destruct (str_includes x "Destroy"); cbn; [reflexivity|].
    destruct (str_includes x "unsubscribe"); cbn; [reflexivity|].
    destruct (str_includes x "Unsubscribe"); cbn; [reflexivity|].
    destruct (str_includes x "take"); reflexivity.
Qed.

Lemma isTakeOperator_ok (a : node) :
  identOk a -> isTakeOperator d t a = Normal (matchesRule d t a).
Proof.
  intros Hok. rewrite isTakeOperator_eq.
  destruct (String.eqb_spec (type a) "Identifier") as [Hty|_]; cbn; [|reflexivity].
  rewrite bool_decide_eq_true_2; [reflexivity | exact (Hok Hty)].
Qed.

Lemma some_isTakeOperator_ok (l : list node) :
  Forall identOk l ->
  some (isTakeOperator d t) l = Normal (existsb (matchesRule d t) l).
Proof.
  induction 1 as [|a l Ha _ IH]; cbn; [reflexivity|].
  rewrite (isTakeOperator_ok a Ha).
  destruct (matchesRule d t a); cbn; [reflexivity | exact IH].
Qed.

(** A true answer of the callback ends the scan, whatever follows; the
    elements before it must have answered false or true. *)
Lemma some_isTakeOperator_hit (pre post : list node) (a : node) :
  Forall identOk pre ->
  isTakeOperator d t a = Normal true ->
  some (isTakeOperator d t) (pre ++ a :: post) = Normal true.
Proof.
  intros Hpre Ha.
  induction Hpre as [|b pre Hb _ IH]; cbn.
  - rewrite Ha. reflexivity.
  - rewrite (isTakeOperator_ok b Hb).
    destruct (matchesRule d t b); [reflexivity | exact IH].
Qed.

Lemma checkForTakeOperatorsInPipe_eq (v : value) :
  checkForTakeOperatorsInPipe v d t =
  match v with
  | Some p => some (isTakeOperator d t) (argumentsOf p)
  | None => Normal false
  end.
Proof.
  destruct v as [p|]; cbn; [|reflexivity].
  unfold checkForTakeOperatorsInPipe, noArguments, argumentsOf; cbn.
  destruct (arguments p) as [[|a l]|]; cbn; reflexivity.
Qed.

End Equations.

Lemma isSubscribeCall_callee (n : node) :
  isSubscribeCall n = true -> is_Some (callee n).
Proof.
  unfold isSubscribeCall. intros H.
  apply andb_true_iff in H as [_ H].
  destruct (callee n); [eauto | discriminate].
Qed.

Lemma onSubscribe_eq (st : state) (n : node) :
  is_Some (callee n) ->
  onSubscribe st n =
  match receiver n with
  | Some p =>
      if isPipeCall p then
        let! b := some (isTakeOperator (takeUntilDestroyedAliases st)
                                       (rxjsTakeOperatorAliases st)) (argumentsOf p) in
        if b then Normal [] else Normal [report n]
      else Normal [report n]
  | None => Normal [report n]
  end.
Proof.
  intros [c Hc]. unfold onSubscribe, receiver. rewrite Hc. cbn.
  rewrite findPipeCallBeforeSubscribe_eq. cbn.
  destruct (object c) as [p|]; cbn; [|reflexivity].
  destruct (isPipeCall p); cbn; [|reflexivity].
  rewrite checkForTakeOperatorsInPipe_eq.
  destruct (some _ _) as [[|]|]; reflexivity.
Qed.

(** ** The alias sets only grow *)

Lemma addDestroyAlias_grows (s : gset string) (sp : specifier) :
  s ⊆ addDestroyAlias s sp.
Proof. unfold addDestroyAlias. case_match; set_solver. Qed.

Lemma addTakeAlias_grows (s : gset string) (sp : specifier) :
  s ⊆ addTakeAlias s sp.
Proof. unfold addTakeAlias. case_match; set_solver. Qed.

Lemma fold_left_grows (f : gset string -> specifier -> gset string)
    (Hf : forall s sp, s ⊆ f s sp) (l : list specifier) (s : gset string) :
  s ⊆ fold_left f l s.
Proof.
  revert s. induction l as [|sp l IH]; intros s; cbn; [set_solver|].
  etrans; [apply (Hf s sp) | apply IH].
Qed.

Lemma addDestroyAlias_binds (s : gset string) (sp : specifier) (l : string) :
  binds sp "takeUntilDestroyed" l -> l ∈ addDestroyAlias s sp.
Proof.
  intros (Hty & (i & Hi & Hn) & <-). unfold addDestroyAlias.
  rewrite Hty, Hi, Hn. cbn.
  apply elem_of_union; left. apply elem_of_singleton. reflexivity.
Qed.

Lemma addTakeAlias_binds (s : gset string) (sp : specifier) (e l : string) :
  e ∈ rxjsTakeOperators -> binds sp e l -> l ∈ addTakeAlias s sp.
Proof.
  intros He (Hty & (i & Hi & Hn) & <-). unfold addTakeAlias.
  rewrite Hty, Hi, Hn. cbn. rewrite bool_decide_eq_true_2 by exact He.
  apply elem_of_union; left. apply elem_of_singleton. reflexivity.
Qed.

Lemma fold_left_adds (f : gset string -> specifier -> gset string)
    (Hf : forall s sp, s ⊆ f s sp) (sp : specifier) (x : string)
    (Hx : forall s, x ∈ f s sp) (l : list specifier) (s : gset string) :
  In sp l -> x ∈ fold_left f l s.
Proof.
  revert s. induction l as [|sp' l IH]; intros s; cbn; [tauto|].
  intros [->|Hin].
  - apply (fold_left_grows f Hf l (f s sp)), Hx.
  - apply IH, Hin.
Qed.

Lemma state_le_refl (st : state) : state_le st st.
Proof. split; reflexivity. Qed.

Lemma state_le_trans (a b c : state) : state_le a b -> state_le b c -> state_le a c.
Proof. intros [? ?] [? ?]; split; etrans; eauto. Qed.

Lemma ImportDeclaration_grows (st : state) (n : importDeclaration) :
  state_le st (ImportDeclaration st n).
Proof.
  unfold state_le, ImportDeclaration; cbn. split.
  - case_match; [apply fold_left_grows, addDestroyAlias_grows | reflexivity].
  - case_match; [apply fold_left_grows, addTakeAlias_grows | reflexivity].
Qed.

Lemma visit_grows (st st' : state) (v : visited) (ds : list diagnostic) :
  visit st v = Normal (st', ds) -> state_le st st'.
Proof.
  destruct v as [n|n]; cbn.
  - intros [= <- _]. apply ImportDeclaration_grows.
  - destruct (isSubscribeCall n).
    + destruct (onSubscribe st n); cbn; [|discriminate].
      intros [= <- _]. apply state_le_refl.
    + intros [= <- _]. apply state_le_refl.
Qed.

Lemma traverse_grows (vs : list visited) (st st' : state) (ds : list diagnostic) :
  traverse st vs = Normal (st', ds) -> state_le st st'.
Proof.
  revert st st' ds. induction vs as [|v vs IH]; intros st st' ds; cbn.
  - intros [= <- _]. apply state_le_refl.
  - destruct (visit st v) as [[st1 ds1]|] eqn:Hv; cbn; [|discriminate].
    destruct (traverse st1 vs) as [[st2 ds2]|] eqn:Ht; cbn; [|discriminate].
    intros [= <- _].
    eapply state_le_trans; [eapply visit_grows, Hv | eapply IH, Ht].
Qed.

(** ** The chain locator and the classifier never fail *)

Lemma some_total (d t : gset string) (l : list node) :
  Forall identOk l -> exists b, some (isTakeOperator d t) l = Normal b.
Proof. intros H. rewrite (some_isTakeOperator_ok d t l H). eauto. Qed.

Lemma Forall_identOk_pipeArguments (n p : node) :
  receiver n = Some p -> Forall identOk (pipeArguments n) ->
  Forall identOk (argumentsOf p).
Proof. unfold pipeArguments. intros ->. tauto. Qed.

(** C7: the chain locator returns for every value, and returns null for
    a null receiver, an absent callee, a callee that is not a member
    access and an absent property; the classifier returns false for a
    null pipe call and for an absent or empty argument list, its
    callback answers false on a call whose callee is absent or is
    neither an identifier nor a member access, and on arguments that are
    ESTree nodes the classifier and the subscribe handler return. *)
Theorem C7_locator_and_classifier_total :
  (forall v, exists r, findPipeCallBeforeSubscribe v = Normal r) /\
  findPipeCallBeforeSubscribe None = Normal None /\
  (forall n, callee n = None -> findPipeCallBeforeSubscribe (Some n) = Normal None) /\
  (forall n c, callee n = Some c -> type c <> "MemberExpression" ->
     findPipeCallBeforeSubscribe (Some n) = Normal None) /\
  (forall n c, callee n = Some c -> property c = None ->
     findPipeCallBeforeSubscribe (Some n) = Normal None) /\
  (forall d t, checkForTakeOperatorsInPipe None d t = Normal false) /\
  (forall d t p, arguments p = None ->
     checkForTakeOperatorsInPipe (Some p) d t = Normal false) /\
  (forall d t p, arguments p = Some [] ->
     checkForTakeOperatorsInPipe (Some p) d t = Normal false) /\
  (forall d t a, type a = "CallExpression" -> callee a = None ->
     isTakeOperator d t a = Normal false) /\
  (forall d t a c, type a = "CallExpression" -> callee a = Some c ->
     type c <> "Identifier" -> type c <> "MemberExpression" ->
     isTakeOperator d t a = Normal false) /\
  (forall d t p, Forall identOk (argumentsOf p) ->
     exists b, checkForTakeOperatorsInPipe (Some p) d t = Normal b) /\
  (forall st n, isSubscribeCall n = true -> Forall identOk (pipeArguments n) ->
     exists ds, onSubscribe st n = Normal ds).
Proof.
  repeat apply conj.
  - intros v. rewrite findPipeCallBeforeSubscribe_eq. eauto.
  - reflexivity.
  - intros n Hc. rewrite findPipeCallBeforeSubscribe_eq.
    unfold isPipeCall. rewrite Hc, andb_false_r. reflexivity.
  - intros n c Hc Hty. rewrite findPipeCallBeforeSubscribe_eq.
    unfold isPipeCall. rewrite Hc.
    apply String.eqb_neq in Hty. rewrite Hty, andb_false_r. reflexivity.
  - intros n c Hc Hp. rewrite findPipeCallBeforeSubscribe_eq.
    unfold isPipeCall. rewrite Hc, Hp, !andb_false_r. reflexivity.
  - reflexivity.
  - intros d t p Hp. rewrite checkForTakeOperatorsInPipe_eq.
    unfold argumentsOf. rewrite Hp. reflexivity.
  - intros d t p Hp. rewrite checkForTakeOperatorsInPipe_eq.
    unfold argumentsOf. rewrite Hp. reflexivity.
  - intros d t a Hty Hc. rewrite isTakeOperator_eq, Hty. cbn.
    unfold matchesRule, directCall, heuristicName, memberCall.
    rewrite Hty, Hc. reflexivity.
  - intros d t a c Hty Hc Hi Hm. rewrite isTakeOperator_eq, Hty. cbn.
    unfold matchesRule, directCall, heuristicName, memberCall.
    rewrite Hty, Hc.
    apply String.eqb_neq in Hi, Hm. rewrite Hi, Hm. reflexivity.
  - intros d t p Hok. rewrite checkForTakeOperatorsInPipe_eq.
    apply some_total, Hok.
  - intros st n Hsub Hok.
    rewrite (onSubscribe_eq st n (isSubscribeCall_callee n Hsub)).
    destruct (receiver n) as [p|] eqn:Hr; [|eauto].
    destruct (isPipeCall p); [|eauto].
    rewrite (some_isTakeOperator_ok _ _ _ (Forall_identOk_pipeArguments n p Hr Hok)).
    cbn. destruct (existsb _ _); eauto.
Qed.

(** The hypothesis on identifiers is needed: a node tagged [Identifier]
    that carries no name makes the callback throw. *)
Example isTakeOperator_nameless (d t : gset string) :
  isTakeOperator d t (mkNode "Identifier" None None None None None) = TypeError.
Proof. reflexivity. Qed.

(** ** The verdict of a subscribe call site *)

Lemma existsb_false_iff {A} (f : A -> bool) (l : list A) :
  existsb f l = false <-> forall a, In a l -> f a = false.
Proof.
  induction l as [|x l IH]; cbn.
  - split; [intros _ a [] | reflexivity].
  - rewrite orb_false_iff, IH. split.
    + intros [Hx Hl] a [<-|Ha]; [exact Hx | exact (Hl a Ha)].
    + intros H. split; [apply H; left; reflexivity | intros a Ha; apply H; right; exact Ha].
Qed.

Lemma onSubscribe_noPipeCall (st : state) (n : node) :
  is_Some (callee n) -> noPipeCall n -> onSubscribe st n = Normal [report n].
Proof.
  intros Hc Hno. rewrite (onSubscribe_eq st n Hc).
  destruct (receiver n) as [p|] eqn:Hr; [|reflexivity].
  rewrite (Hno p Hr). reflexivity.
Qed.

Lemma onSubscribe_verdict (st : state) (n p : node) :
  is_Some (callee n) -> receiver n = Some p -> isPipeCall p = true ->
  Forall identOk (argumentsOf p) ->
  onSubscribe st n =
  Normal (if existsb (matchesRule (takeUntilDestroyedAliases st)
                                  (rxjsTakeOperatorAliases st)) (argumentsOf p)
          then [] else [report n]).
Proof.
  intros Hc Hr Hp Hok. rewrite (onSubscribe_eq st n Hc), Hr, Hp.
  rewrite (some_isTakeOperator_ok _ _ _ Hok). cbn.
  destruct (existsb _ _); reflexivity.
Qed.

(** X15: at a subscribe call site the handler reports exactly the one
    diagnostic [missingTakeUntilDestroyed] on that node if and only if
    the receiver is not a call [<anything>.pipe(...)] or it is one and
    the callback of the classifier answers true on none of its
    arguments; otherwise it reports nothing.  The arguments of
    [subscribe] itself are never read. *)
Theorem one_diagnostic_iff_no_match (st : state) (n : node) :
  isSubscribeCall n = true ->
  Forall identOk (pipeArguments n) ->
  (onSubscribe st n = Normal [mkDiagnostic n "missingTakeUntilDestroyed"]
     <-> noPipeCall n \/ pipeWithoutMatch st n) /\
  (onSubscribe st n = Normal []
     <-> ~ (noPipeCall n \/ pipeWithoutMatch st n)) /\
  (noPipeCall n -> forall args,
     onSubscribe st (withArguments n args)
     = Normal [mkDiagnostic (withArguments n args) "missingTakeUntilDestroyed"]).
Proof.
  intros Hsub Hok.
  pose proof (isSubscribeCall_callee n Hsub) as Hc.
  assert (Hcase :
    (noPipeCall n \/ pipeWithoutMatch st n) /\ onSubscribe st n = Normal [report n]
    \/ ~ (noPipeCall n \/ pipeWithoutMatch st n) /\ onSubscribe st n = Normal []).
  { destruct (receiver n) as [p|] eqn:Hr.
    - destruct (isPipeCall p) eqn:Hp.
      + rewrite (onSubscribe_verdict st n p Hc Hr Hp
                   (Forall_identOk_pipeArguments n p Hr Hok)).
        destruct (existsb _ (argumentsOf p)) eqn:Hex.
        * right. split; [|reflexivity].
          intros [Hno | (q & Hq & _ & Hall)].
          -- specialize (Hno p Hr). congruence.
          -- rewrite Hr in Hq. injection Hq as <-.
             apply existsb_false_iff in Hall. congruence.
        * left. split; [|reflexivity].
          right. exists p. repeat split; try assumption.
          apply existsb_false_iff, Hex.
      + left. split.
        * left. intros q Hq. rewrite Hr in Hq. injection Hq as <-. exact Hp.
        * apply onSubscribe_noPipeCall; [exact Hc|].
          intros q Hq. rewrite Hr in Hq. injection Hq as <-. exact Hp.
    - left. split.
      + left. intros q Hq. rewrite Hr in Hq. discriminate.
      + apply onSubscribe_noPipeCall; [exact Hc|].
        intros q Hq. rewrite Hr in Hq. discriminate. }
  split; [|split].
  - destruct Hcase as [[Hm He]|[Hm He]]; rewrite He; split; intros H;
      try assumption; try reflexivity; try discriminate; tauto.
  - destruct Hcase as [[Hm He]|[Hm He]]; rewrite He; split; intros H;
      try assumption; try reflexivity; try discriminate; tauto.
  - intros Hno args.
    apply (onSubscribe_noPipeCall st (withArguments n args)); [exact Hc | exact Hno].
Qed.

Lemma matchesRule_identOk (d t : gset string) (a : node) :
  matchesRule d t a = true -> identOk a.
Proof.
  intros Hm Hty. unfold matchesRule, directCall, heuristicName, memberCall in Hm.
  rewrite Hty in Hm. cbn in Hm.
  destruct (name a); [eauto | discriminate].
Qed.

Lemma existsb_Permutation {A} (f : A -> bool) (l l' : list A) :
  Permutation l l' -> existsb f l = existsb f l'.
Proof.
  induction 1 as [|x l l' _ IH|x y l|l l' l'' _ IH1 _ IH2]; cbn.
  - reflexivity.
  - rewrite IH. reflexivity.
  - destruct (f x), (f y); reflexivity.
  - congruence.
Qed.

(** X16: when the callback of the classifier answers true on one
    argument of the pipe call, the verdict is positive and nothing is
    reported, whatever arguments stand before or after it; and on any
    reordering of the arguments the verdict is the same. *)
Theorem one_matching_argument_suffices
    (st : state) (n p a : node) (pre post : list node) :
  isSubscribeCall n = true ->
  receiver n = Some p ->
  isPipeCall p = true ->
  arguments p = Some (pre ++ a :: post) ->
  Forall identOk pre ->
  matchesRule (takeUntilDestroyedAliases st) (rxjsTakeOperatorAliases st) a = true ->
  checkForTakeOperatorsInPipe (Some p)
    (takeUntilDestroyedAliases st) (rxjsTakeOperatorAliases st) = Normal true /\
  onSubscribe st n = Normal [] /\
  (forall p' args', arguments p' = Some args' ->
     Permutation (pre ++ a :: post) args' -> Forall identOk args' ->
     checkForTakeOperatorsInPipe (Some p')
       (takeUntilDestroyedAliases st) (rxjsTakeOperatorAliases st) = Normal true).
Proof.
  intros Hsub Hr Hp Hargs Hpre Ha.
  set (d := takeUntilDestroyedAliases st) in *.
  set (t := rxjsTakeOperatorAliases st) in *.
  assert (Hhit : some (isTakeOperator d t) (pre ++ a :: post) = Normal true).
  { apply some_isTakeOperator_hit; [exact Hpre|].
    rewrite (isTakeOperator_ok d t a (matchesRule_identOk d t a Ha)), Ha.
    reflexivity. }
  assert (Hargs' : argumentsOf p = pre ++ a :: post).
  { unfold argumentsOf. rewrite Hargs. reflexivity. }
  split; [|split].
  - rewrite checkForTakeOperatorsInPipe_eq, Hargs'. exact Hhit.
  - rewrite (onSubscribe_eq st n (isSubscribeCall_callee n Hsub)), Hr, Hp, Hargs'.
    fold d t. rewrite Hhit. reflexivity.
  - intros p' args' Hp' Hperm Hok.
    rewrite checkForTakeOperatorsInPipe_eq. unfold argumentsOf. rewrite Hp'.
    rewrite (some_isTakeOperator_ok d t args' Hok).
    rewrite <- (existsb_Permutation _ _ _ Hperm).
    rewrite existsb_app. cbn. rewrite Ha, orb_true_r. reflexivity.
Qed.

(** C6: on a pipe call with an empty argument list the guard at the top
    of the classifier is taken and the classifier returns false, and the
    subscribe call site is reported. *)
Theorem C6_empty_pipe_is_reported (st : state) (n p : node) :
  arguments p = Some [] ->
  noArguments (Some p) = Normal true /\
  (forall d t, checkForTakeOperatorsInPipe (Some p) d t = Normal false) /\
  (isSubscribeCall n = true -> receiver n = Some p -> isPipeCall p = true ->
   onSubscribe st n = Normal [report n]).
Proof.
  intros Hargs. split; [|split].
  - unfold noArguments. cbn. rewrite Hargs. reflexivity.
  - intros d t. unfold checkForTakeOperatorsInPipe, noArguments. cbn.
    rewrite Hargs. reflexivity.
  - intros Hsub Hr Hp.
    rewrite (onSubscribe_eq st n (isSubscribeCall_callee n Hsub)), Hr, Hp.
    unfold argumentsOf. rewrite Hargs. reflexivity.
Qed.

(** C9: the function kept for backward compatibility returns what the
    classifier returns on the same pipe call and alias set with an empty
    second set. *)
Theorem C9_legacy_function_agrees (pipeCall : value) (A : gset string) :
  checkForTakeUntilDestroyedInPipe pipeCall A
  = checkForTakeOperatorsInPipe pipeCall A ∅.
Proof. reflexivity. Qed.

(** With an empty second set, only the first set decides membership. *)
Lemma known_empty (A : gset string) (x : option string) :
  known A ∅ x = has A x.
Proof.
  unfold known. destruct x as [x|]; cbn; [|reflexivity].
  rewrite (bool_decide_eq_false_2 (x ∈ (∅ : gset string))) by set_solver.
  apply orb_false_r.
Qed.

(** ** Aliases registered by imports *)

Lemma isTakeOperator_directCallTo (d t : gset string) (l : string) (a : node) :
  directCallTo l a -> l ∈ d \/ l ∈ t -> isTakeOperator d t a = Normal true.
Proof.
  intros (Hty & f & Hf & Hfty & Hn) Hin.
  rewrite isTakeOperator_eq, Hty. cbn.
  unfold matchesRule, directCall, known. rewrite Hty, Hf, Hfty, Hn. cbn.
  destruct Hin as [Hin|Hin]; rewrite (bool_decide_eq_true_2 _ Hin).
  - reflexivity.
  - rewrite orb_true_r. reflexivity.
Qed.

Lemma ImportDeclaration_destroy (st : state) (imp : importDeclaration)
    (sp : specifier) (l : string) :
  source imp = "@angular/core/rxjs-interop" ->
  In sp (specifiers imp) ->
  binds sp "takeUntilDestroyed" l ->
  l ∈ takeUntilDestroyedAliases (ImportDeclaration st imp).
Proof.
  intros Hsrc Hin Hb. unfold ImportDeclaration; cbn. rewrite Hsrc. cbn.
  apply (fold_left_adds addDestroyAlias addDestroyAlias_grows sp l); [|exact Hin].
  intros s. apply addDestroyAlias_binds, Hb.
Qed.

Lemma rxjsTakeOperators_elem (x : string) :
  x ∈ rxjsTakeOperators <-> In x ["takeUntil"; "takeWhile"; "take"; "takeLast"].
Proof.
  unfold rxjsTakeOperators. cbn.
  rewrite !elem_of_union, !elem_of_singleton. intuition congruence.
Qed.

Lemma ImportDeclaration_take (st : state) (imp : importDeclaration)
    (sp : specifier) (e l : string) :
  source imp = "rxjs" \/ source imp = "rxjs/operators" ->
  In e ["takeUntil"; "takeWhile"; "take"; "takeLast"] ->
  In sp (specifiers imp) ->
  binds sp e l ->
  l ∈ rxjsTakeOperatorAliases (ImportDeclaration st imp).
Proof.
  intros Hsrc He Hin Hb. unfold ImportDeclaration; cbn.
  assert (Hs : String.eqb (source imp) "rxjs"
               || String.eqb (source imp) "rxjs/operators" = true).
  { destruct Hsrc as [-> | ->]; reflexivity. }
  rewrite Hs.
  apply (fold_left_adds addTakeAlias addTakeAlias_grows sp l); [|exact Hin].
  intros s. apply (addTakeAlias_binds s sp e l); [|exact Hb].
  apply rxjsTakeOperators_elem, He.
Qed.

Lemma visit_subscribe_site (st : state) (n : node) (ds : list diagnostic) :
  isSubscribeCall n = true -> onSubscribe st n = Normal ds ->
  visit st (VisitNode n) = Normal (st, ds).
Proof. intros Hsub Hon. cbn. rewrite Hsub, Hon. reflexivity. Qed.

(** C2: an import from [@angular/core/rxjs-interop] that binds
    [takeUntilDestroyed] to a local name adds that name to the destroy
    alias set, the name is still there after any further traversal, and
    a later subscribe call site whose pipe call has a direct call of that
    name among its arguments is not reported. *)
Theorem C2_destroy_alias_is_recognised
    (st st' : state) (imp : importDeclaration) (sp : specifier) (L : string)
    (later : list visited) (ds : list diagnostic)
    (n p a : node) (pre post : list node) :
  source imp = "@angular/core/rxjs-interop" ->
  In sp (specifiers imp) ->
  binds sp "takeUntilDestroyed" L ->
  traverse (ImportDeclaration st imp) later = Normal (st', ds) ->
  isSubscribeCall n = true ->
  receiver n = Some p ->
  isPipeCall p = true ->
  arguments p = Some (pre ++ a :: post) ->
  directCallTo L a ->
  Forall identOk pre ->
  L ∈ takeUntilDestroyedAliases (ImportDeclaration st imp) /\
  L ∈ takeUntilDestroyedAliases st' /\
  onSubscribe st' n = Normal [] /\
  visit st' (VisitNode n) = Normal (st', []).
Proof.
  intros Hsrc Hin Hb Htr Hsub Hr Hp Hargs Ha Hpre.
  pose proof (ImportDeclaration_destroy st imp sp L Hsrc Hin Hb) as H1.
  assert (H2 : L ∈ takeUntilDestroyedAliases st').
  { destruct (traverse_grows later _ _ _ Htr) as [Hd _]. apply Hd, H1. }
  assert (H3 : onSubscribe st' n = Normal []).
  { rewrite (onSubscribe_eq st' n (isSubscribeCall_callee n Hsub)), Hr, Hp.
    unfold argumentsOf. rewrite Hargs.
    rewrite (some_isTakeOperator_hit _ _ pre post a Hpre); [reflexivity|].
    apply (isTakeOperator_directCallTo _ _ L a Ha). left. exact H2. }
  repeat split; try assumption.
  apply visit_subscribe_site; assumption.
Qed.

(** C3: after an import from [rxjs] or [rxjs/operators] that binds one of
    [takeUntil], [takeWhile], [take], [takeLast] to a local name, the
    callback of the classifier answers true on a direct call of the local
    name as it does on a direct call of the exported name, and the
    classifier returns the same on two pipe calls that differ only in
    which of the two calls stands at one position. *)
Theorem C3_take_alias_same_as_canonical
    (before later : list visited) (ds0 ds : list diagnostic)
    (st st' : state) (imp : importDeclaration) (sp : specifier) (E L : string)
    (p p' a a' : node) (pre post : list node) :
  traverse create before = Normal (st, ds0) ->
  source imp = "rxjs" \/ source imp = "rxjs/operators" ->
  In E ["takeUntil"; "takeWhile"; "take"; "takeLast"] ->
  In sp (specifiers imp) ->
  binds sp E L ->
  traverse (ImportDeclaration st imp) later = Normal (st', ds) ->
  directCallTo L a ->
  directCallTo E a' ->
  arguments p = Some (pre ++ a :: post) ->
  arguments p' = Some (pre ++ a' :: post) ->
  let d := takeUntilDestroyedAliases st' in
  let t := rxjsTakeOperatorAliases st' in
  L ∈ t /\
  isTakeOperator d t a = Normal true /\
  isTakeOperator d t a' = Normal true /\
  checkForTakeOperatorsInPipe (Some p) d t = checkForTakeOperatorsInPipe (Some p') d t.
Proof.
  intros Hbefore Hsrc HE Hin Hb Hlater Ha Ha' Hp Hp' d t.
  assert (HL : L ∈ t).
  { destruct (traverse_grows later _ _ _ Hlater) as [_ Ht]. apply Ht.
    exact (ImportDeclaration_take st imp sp E L Hsrc HE Hin Hb). }
  assert (HEt : E ∈ t).
  { destruct (traverse_grows later _ _ _ Hlater) as [_ Ht]. apply Ht.
    destruct (ImportDeclaration_grows st imp) as [_ Hi]. apply Hi.
    destruct (traverse_grows before _ _ _ Hbefore) as [_ Hc]. apply Hc.
    apply rxjsTakeOperators_elem, HE. }
  pose proof (isTakeOperator_directCallTo d t L a Ha (or_intror HL)) as H1.
  pose proof (isTakeOperator_directCallTo d t E a' Ha' (or_intror HEt)) as H2.
  repeat split; try assumption.
  rewrite !checkForTakeOperatorsInPipe_eq. unfold argumentsOf. rewrite Hp, Hp'.
  clear Hp Hp'. induction pre as [|b pre IH]; cbn.
  - rewrite H1, H2. reflexivity.
  - destruct (isTakeOperator d t b) as [[|]|]; [reflexivity | exact IH | reflexivity].
Qed.

(** ** Imports that register nothing *)

Lemma addDestroyAlias_frame (s : gset string) (sp : specifier) :
  ~ (exists l, binds sp "takeUntilDestroyed" l) -> addDestroyAlias s sp = s.
Proof.
  intros Hno. unfold addDestroyAlias.
  destruct (String.eqb_spec (spec_type sp) "ImportSpecifier") as [Hty|_]; cbn;
    [|reflexivity].
  destruct (imported sp) as [i|] eqn:Hi; [|reflexivity].
  destruct (name i) as [x|] eqn:Hx; cbn; [|reflexivity].
  destruct (String.eqb_spec x "takeUntilDestroyed") as [->|_]; [|reflexivity].
  exfalso. apply Hno. exists (local sp). unfold binds. eauto 10.
Qed.

Lemma addTakeAlias_frame (s : gset string) (sp : specifier) :
  ~ (exists e l, In e ["takeUntil"; "takeWhile"; "take"; "takeLast"] /\ binds sp e l) ->
  addTakeAlias s sp = s.
Proof.
  intros Hno. unfold addTakeAlias.
  destruct (String.eqb_spec (spec_type sp) "ImportSpecifier") as [Hty|_]; cbn;
    [|reflexivity].
  destruct (imported sp) as [i|] eqn:Hi; [|reflexivity].
  destruct (name i) as [x|] eqn:Hx; cbn; [|reflexivity].
  destruct (bool_decide_reflect (x ∈ rxjsTakeOperators)) as [Hin|_]; [|reflexivity].
  exfalso. apply Hno. exists x, (local sp). split.
  - apply rxjsTakeOperators_elem, Hin.
  - unfold binds. eauto 10.
Qed.

Lemma fold_left_frame (f : gset string -> specifier -> gset string)
    (l : list specifier) (s : gset string) :
  (forall sp, In sp l -> f s sp = s) -> fold_left f l s = s.
Proof.
  induction l as [|sp l IH]; cbn; [reflexivity|]. intros H.
  rewrite (H sp (or_introl eq_refl)). apply IH.
  intros sp' Hin. apply H. right. exact Hin.
Qed.

Lemma ImportDeclaration_frame (st : state) (imp : importDeclaration) :
  (forall sp, In sp (specifiers imp) -> ~ registers (source imp) sp) ->
  ImportDeclaration st imp = st.
Proof.
  intros Hno. destruct st as [d t]. unfold ImportDeclaration; cbn. f_equal.
  - destruct (String.eqb_spec (source imp) "@angular/core/rxjs-interop") as [Hs|_];
      [|reflexivity].
    apply fold_left_frame. intros sp Hin. apply addDestroyAlias_frame.
    intros Hb. apply (Hno sp Hin). left. split; assumption.
  - destruct (String.eqb_spec (source imp) "rxjs") as [Hs|_]; cbn.
    + apply fold_left_frame. intros sp Hin. apply addTakeAlias_frame.
      intros Hb. apply (Hno sp Hin). right. split; [left|]; assumption.
    + destruct (String.eqb_spec (source imp) "rxjs/operators") as [Hs|_];
        [|reflexivity].
      apply fold_left_frame. intros sp Hin. apply addTakeAlias_frame.
      intros Hb. apply (Hno sp Hin). right. split; [right|]; assumption.
Qed.

Lemma binds_importedName (sp : specifier) (e l : string) :
  binds sp e l -> spec_type sp = "ImportSpecifier" /\ importedName sp = Some e.
Proof.
  intros (Hty & (i & Hi & Hn) & _). unfold importedName. rewrite Hi. tauto.
Qed.

(** C10: an import declaration none of whose specifiers pairs the
    module with one of its tracked exports leaves both sets as they
    were; so do [takeUntilDestroyed] imported from [rxjs] or
    [rxjs/operators], the four take operators imported from
    [@angular/core/rxjs-interop], any import from another module, and
    specifiers that are not [ImportSpecifier]. *)
Theorem C10_mismatched_import_registers_nothing (st : state) (imp : importDeclaration) :
  ((forall sp, In sp (specifiers imp) -> ~ registers (source imp) sp) ->
   ImportDeclaration st imp = st) /\
  ((source imp = "rxjs" \/ source imp = "rxjs/operators") ->
   (forall sp, In sp (specifiers imp) -> importedName sp = Some "takeUntilDestroyed") ->
   ImportDeclaration st imp = st) /\
  (source imp = "@angular/core/rxjs-interop" ->
   (forall sp, In sp (specifiers imp) ->
      exists e, In e ["takeUntil"; "takeWhile"; "take"; "takeLast"] /\
                importedName sp = Some e) ->
   ImportDeclaration st imp = st) /\
  (source imp <> "@angular/core/rxjs-interop" ->
   source imp <> "rxjs" -> source imp <> "rxjs/operators" ->
   ImportDeclaration st imp = st) /\
  ((forall sp, In sp (specifiers imp) -> spec_type sp <> "ImportSpecifier") ->
   ImportDeclaration st imp = st).
Proof.
  split; [|split; [|split; [|split]]].
  - apply ImportDeclaration_frame.
  - intros Hsrc Hall. apply ImportDeclaration_frame. intros sp Hin.
    specialize (Hall sp Hin).
    intros [[Hs _] | [_ (e & l & He & Hb)]].
    + destruct Hsrc as [H|H]; rewrite H in Hs; discriminate.
    + apply binds_importedName in Hb as [_ Hb]. rewrite Hall in Hb.
      injection Hb as <-. cbn in He. intuition discriminate.
  - intros Hsrc Hall. apply ImportDeclaration_frame. intros sp Hin.
    destruct (Hall sp Hin) as (e & He & Hn).
    intros [[_ (l & Hb)] | [[Hs|Hs] _]].
    + apply binds_importedName in Hb as [_ Hb]. rewrite Hn in Hb.
      injection Hb as ->. cbn in He. intuition discriminate.
    + rewrite Hsrc in Hs. discriminate.
    + rewrite Hsrc in Hs. discriminate.
  - intros H1 H2 H3. apply ImportDeclaration_frame. intros sp _.
    intros [[Hs _] | [[Hs|Hs] _]]; contradiction.
  - intros Hall. apply ImportDeclaration_frame. intros sp Hin.
    specialize (Hall sp Hin).
    intros [[_ (l & Hb)] | [_ (e & l & _ & Hb)]];
      apply binds_importedName in Hb as [Hty _]; contradiction.
Qed.

(** ** The store and the state-passing rule agree *)

Lemma members_add_eq (h : Store.store) (r : Store.ref) (x : string) :
  r < length h ->
  Store.members (Store.add h r x) r = {[ x ]} ∪ Store.members h r.
Proof.
  intros Hr. unfold Store.members, Store.add.
  rewrite list_lookup_alter_eq.
  destruct (lookup_lt_is_Some_2 h r Hr) as [s ->]. reflexivity.
Qed.

Lemma members_add_ne (h : Store.store) (r r' : Store.ref) (x : string) :
  r <> r' -> Store.members (Store.add h r x) r' = Store.members h r'.
Proof.
  intros Hne. unfold Store.members, Store.add.
  rewrite list_lookup_alter_ne by exact Hne. reflexivity.
Qed.

Lemma length_add (h : Store.store) (r : Store.ref) (x : string) :
  length (Store.add h r x) = length h.
Proof. apply length_alter. Qed.

Lemma members_new_Set_old (h : Store.store) (s : gset string) (r : Store.ref) :
  r < length h -> Store.members (fst (Store.new_Set h s)) r = Store.members h r.
Proof.
  intros Hr. unfold Store.members, Store.new_Set. cbn.
  rewrite lookup_app_l by exact Hr. reflexivity.
Qed.

Lemma members_new_Set_new (h : Store.store) (s : gset string) :
  Store.members (fst (Store.new_Set h s)) (snd (Store.new_Set h s)) = s.
Proof.
  unfold Store.members, Store.new_Set. cbn.
  rewrite list_lookup_middle by reflexivity. reflexivity.
Qed.

Lemma store_addDestroyAlias (c : Store.closure) (specs : list specifier) (h : Store.store) :
  Store.takeUntilDestroyedAliases c < length h ->
  let h' := fold_left (Store.addDestroyAlias c) specs h in
  length h' = length h /\
  Store.members h' (Store.takeUntilDestroyedAliases c)
  = fold_left addDestroyAlias specs (Store.members h (Store.takeUntilDestroyedAliases c)) /\
  (forall r, r <> Store.takeUntilDestroyedAliases c ->
     Store.members h' r = Store.members h r).
Proof.
  revert h. induction specs as [|sp specs IH]; intros h Hlt; cbn.
  - repeat split; reflexivity.
  - unfold Store.addDestroyAlias at 2 4 6, addDestroyAlias at 2.
    destruct (_ && _).
    + destruct (IH (Store.add h (Store.takeUntilDestroyedAliases c) (local sp)))
        as (Hlen & Hm & Hfr).
      { rewrite length_add. exact Hlt. }
      cbn in Hlen, Hm, Hfr. rewrite length_add in Hlen.
      rewrite (members_add_eq h _ _ Hlt) in Hm.
      split; [exact Hlen|]. split; [exact Hm|].
      intros r Hr. rewrite (Hfr r Hr). apply members_add_ne. congruence.
    + apply IH, Hlt.
Qed.

Lemma store_addTakeAlias (c : Store.closure) (specs : list specifier) (h : Store.store) :
  Store.rxjsTakeOperatorAliases c < length h ->
  Store.rxjsTakeOperators c <> Store.rxjsTakeOperatorAliases c ->
  Store.members h (Store.rxjsTakeOperators c) = rxjsTakeOperators ->
  let h' := fold_left (Store.addTakeAlias c) specs h in
  length h' = length h /\
  Store.members h' (Store.rxjsTakeOperatorAliases c)
  = fold_left addTakeAlias specs (Store.members h (Store.rxjsTakeOperatorAliases c)) /\
  (forall r, r <> Store.rxjsTakeOperatorAliases c ->
     Store.members h' r = Store.members h r).
Proof.
  intros Hlt Hne. revert h Hlt.
  induction specs as [|sp specs IH]; intros h Hlt Hops; cbn.
  - repeat split; reflexivity.
  - unfold Store.addTakeAlias at 2 4 6, addTakeAlias at 2. rewrite Hops.
    destruct (_ && _).
    + destruct (IH (Store.add h (Store.rxjsTakeOperatorAliases c) (local sp)))
        as (Hlen & Hm & Hfr).
      { rewrite length_add. exact Hlt. }
      { rewrite members_add_ne by congruence. exact Hops. }
      cbn in Hlen, Hm, Hfr. rewrite length_add in Hlen.
      rewrite (members_add_eq h _ _ Hlt) in Hm.
      split; [exact Hlen|]. split; [exact Hm|].
      intros r Hr. rewrite (Hfr r Hr). apply members_add_ne. congruence.
    + apply IH; assumption.
Qed.

(** The handler on the store does to the two captured sets what the
    state-passing handler does, and touches no other object. *)
Lemma Store_ImportDeclaration_view (c : Store.closure) (h : Store.store)
    (n : importDeclaration) :
  Store.valid c h ->
  Store.view c (Store.ImportDeclaration c h n) = ImportDeclaration (Store.view c h) n /\
  Store.valid c (Store.ImportDeclaration c h n) /\
  (forall r, r <> Store.takeUntilDestroyedAliases c ->
             r <> Store.rxjsTakeOperatorAliases c ->
     Store.members (Store.ImportDeclaration c h n) r = Store.members h r).
Proof.
  intros (Ha & Hb & Hc & Hab & Hac & Hbc & Hops).
  unfold Store.ImportDeclaration, ImportDeclaration, Store.view. cbn.
  set (h1 := if String.eqb (source n) "@angular/core/rxjs-interop"
             then fold_left (Store.addDestroyAlias c) (specifiers n) h else h).
  assert (H1 : length h1 = length h /\
    Store.members h1 (Store.takeUntilDestroyedAliases c)
    = (if String.eqb (source n) "@angular/core/rxjs-interop"
       then fold_left addDestroyAlias (specifiers n)
              (Store.members h (Store.takeUntilDestroyedAliases c))
       else Store.members h (Store.takeUntilDestroyedAliases c)) /\
    (forall r, r <> Store.takeUntilDestroyedAliases c ->
       Store.members h1 r = Store.members h r)).
  { subst h1. destruct (String.eqb _ "@angular/core/rxjs-interop").
    - apply store_addDestroyAlias, Ha.
    - repeat split; reflexivity. }
  destruct H1 as (Hlen1 & Hm1 & Hfr1).
  set (h2 := if String.eqb (source n) "rxjs" || String.eqb (source n) "rxjs/operators"
             then fold_left (Store.addTakeAlias c) (specifiers n) h1 else h1).
  assert (H2 : length h2 = length h1 /\
    Store.members h2 (Store.rxjsTakeOperatorAliases c)
    = (if String.eqb (source n) "rxjs" || String.eqb (source n) "rxjs/operators"
       then fold_left addTakeAlias (specifiers n)
              (Store.members h1 (Store.rxjsTakeOperatorAliases c))
       else Store.members h1 (Store.rxjsTakeOperatorAliases c)) /\
    (forall r, r <> Store.rxjsTakeOperatorAliases c ->
       Store.members h2 r = Store.members h1 r)).
  { subst h2. destruct (_ || _).
    - apply store_addTakeAlias; [rewrite Hlen1; exact Hc | exact Hbc |].
      rewrite Hfr1 by congruence. exact Hops.
    - repeat split; reflexivity. }
  destruct H2 as (Hlen2 & Hm2 & Hfr2).
  split; [|split].
  - rewrite Hm2, (Hfr2 _ Hac), Hm1, (Hfr1 (Store.rxjsTakeOperatorAliases c)) by congruence.
    reflexivity.
  - unfold Store.valid. rewrite Hlen2, Hlen1.
    repeat split; try assumption.
    rewrite Hfr2, Hfr1 by congruence. exact Hops.
  - intros r Hra Hrc. rewrite (Hfr2 r Hrc), (Hfr1 r Hra). reflexivity.
Qed.

(** Whatever the store holds, [create] returns three new objects with
    the seed members and leaves every older object as it was. *)
Lemma Store_create_fresh (h : Store.store) :
  let h' := fst (Store.create h) in
  let c := snd (Store.create h) in
  Store.view c h' = create /\
  Store.valid c h' /\
  length h <= Store.takeUntilDestroyedAliases c /\
  length h <= Store.rxjsTakeOperators c /\
  length h <= Store.rxjsTakeOperatorAliases c /\
  (forall r, r < length h -> Store.members h' r = Store.members h r).
Proof.
  cbn. unfold Store.view, Store.valid, Store.members. cbn.
  rewrite !length_app. cbn.
  assert (E1 : forall x y z : gset string,
            (((h ++ [x]) ++ [y]) ++ [z]) !! length h = Some x).
  { intros x y z. rewrite <- !app_assoc. apply list_lookup_middle. reflexivity. }
  assert (E2 : forall x y z : gset string,
            (((h ++ [x]) ++ [y]) ++ [z]) !! (length h + 1) = Some y).
  { intros x y z. rewrite <- (app_assoc (h ++ [x])).
    apply list_lookup_middle. rewrite length_app. reflexivity. }
  assert (E3 : forall x y z : gset string,
            (((h ++ [x]) ++ [y]) ++ [z]) !! (length h + 1 + 1) = Some z).
  { intros x y z. apply list_lookup_middle. rewrite !length_app. reflexivity. }
  assert (E0 : forall x y : gset string, ((h ++ [x]) ++ [y]) !! (length h + 1) = Some y).
  { intros x y. apply list_lookup_middle. rewrite length_app. reflexivity. }
  rewrite E0. cbn. rewrite E1, E2, E3. cbn.
  repeat split; try lia.
  intros r Hr. rewrite <- !app_assoc. rewrite lookup_app_l by exact Hr. reflexivity.
Qed.

(** ** The alias sets within one pass *)

(** C8: [create] seeds the destroy set with [takeUntilDestroyed] and the
    take set with [takeUntil], [takeWhile], [take], [takeLast]; every
    handler call and every traversal leaves each set a superset of what
    it was, the subscribe handler leaves the sets as they are, and a
    pass starts from what [create] allocates.  On the store: whatever
    earlier passes left there, [create] returns new objects holding the
    seed members and leaves the older objects alone, and the import
    handler changes only the two alias sets of its own closure. *)
Theorem C8_alias_sets_seeded_and_append_only :
  takeUntilDestroyedAliases create = {[ "takeUntilDestroyed" ]} /\
  (forall x, x ∈ takeUntilDestroyedAliases create <-> x = "takeUntilDestroyed") /\
  (forall x, x ∈ rxjsTakeOperatorAliases create
             <-> In x ["takeUntil"; "takeWhile"; "take"; "takeLast"]) /\
  (forall st imp x,
     (x ∈ takeUntilDestroyedAliases st ->
      x ∈ takeUntilDestroyedAliases (ImportDeclaration st imp)) /\
     (x ∈ rxjsTakeOperatorAliases st ->
      x ∈ rxjsTakeOperatorAliases (ImportDeclaration st imp))) /\
  (forall st n st' ds, visit st (VisitNode n) = Normal (st', ds) -> st' = st) /\
  (forall st vs st' ds x, traverse st vs = Normal (st', ds) ->
     (x ∈ takeUntilDestroyedAliases st -> x ∈ takeUntilDestroyedAliases st') /\
     (x ∈ rxjsTakeOperatorAliases st -> x ∈ rxjsTakeOperatorAliases st')) /\
  (forall vs, lint vs = traverse create vs) /\
  (forall h, Store.view (snd (Store.create h)) (fst (Store.create h)) = create /\
             Store.valid (snd (Store.create h)) (fst (Store.create h)) /\
             forall r, r < length h ->
               Store.members (fst (Store.create h)) r = Store.members h r) /\
  (forall c h imp, Store.valid c h ->
     Store.view c (Store.ImportDeclaration c h imp)
     = ImportDeclaration (Store.view c h) imp /\
     forall r, r <> Store.takeUntilDestroyedAliases c ->
               r <> Store.rxjsTakeOperatorAliases c ->
       Store.members (Store.ImportDeclaration c h imp) r = Store.members h r).
Proof.
  split; [|split; [|split; [|split; [|split; [|split; [|split; [|split]]]]]]].
  - reflexivity.
  - intros x. cbn. apply elem_of_singleton.
  - intros x. apply rxjsTakeOperators_elem.
  - intros st imp x. destruct (ImportDeclaration_grows st imp) as [Hd Ht].
    split; [apply Hd | apply Ht].
  - intros st n st' ds. cbn. destruct (isSubscribeCall n).
    + destruct (onSubscribe st n); cbn; [|discriminate]. intros [= <- _]. reflexivity.
    + intros [= <- _]. reflexivity.
  - intros st vs st' ds x Htr. destruct (traverse_grows vs st st' ds Htr) as [Hd Ht].
    split; [apply Hd | apply Ht].
  - reflexivity.
  - intros h. destruct (Store_create_fresh h) as (Hv & Hok & _ & _ & _ & Hold).
    split; [exact Hv|]. split; [exact Hok | exact Hold].
  - intros c h imp Hok.
    destruct (Store_ImportDeclaration_view c h imp Hok) as (Hv & _ & Hfr).
    split; [exact Hv | exact Hfr].
Qed.

(** ** The name test on bare identifiers *)

Lemma isTakeOperator_Identifier (d t : gset string) (x : string) :
  isTakeOperator d t (Identifier x) = Normal (operatorLikeName x).
Proof.
  rewrite isTakeOperator_ok by (intros _; cbn; eauto).
  unfold matchesRule, directCall, memberCall, heuristicName. cbn.
  rewrite orb_false_r. reflexivity.
Qed.

Lemma FixableRule_isTakeOperator_Identifier (d t : gset string) (x : string) :
  FixableRule.isTakeOperator d t (Identifier x) = Normal (containsIgnoringCase x).
Proof.
  unfold FixableRule.isTakeOperator, containsIgnoringCase. cbn.
  destruct (str_includes _ "destroy"); cbn; [reflexivity|].
  destruct (str_includes _ "unsubscribe"); cbn; [reflexivity|].
  destruct (str_includes _ "take"); reflexivity.
Qed.

Lemma prefix_toLowerCase (x s : string) :
  String.prefix s x = true ->
  String.prefix (FixableRule.str_toLowerCase s) (FixableRule.str_toLowerCase x) = true.
Proof.
  revert s. induction x as [|b x IH]; intros [|a s]; cbn; try congruence.
  destruct (ascii_dec a b) as [->|]; [|discriminate].
  intros H. destruct (ascii_dec _ _) as [_|Hne]; [apply IH, H | congruence].
Qed.

Lemma str_includes_toLowerCase (x s : string) :
  str_includes x s = true ->
  str_includes (FixableRule.str_toLowerCase x) (FixableRule.str_toLowerCase s) = true.
Proof.
  induction x as [|b x IH]; cbn [str_includes FixableRule.str_toLowerCase].
  - destruct s; cbn; [reflexivity | discriminate].
  - intros H. apply orb_true_iff in H as [H|H].
    + apply prefix_toLowerCase in H. cbn [FixableRule.str_toLowerCase] in H.
      rewrite H. reflexivity.
    + rewrite (IH H). apply orb_true_r.
Qed.

(** Every name the rule file accepts contains one of the three words
    when case is ignored; the converse fails (see below). *)
Lemma operatorLikeName_containsIgnoringCase (x : string) :
  operatorLikeName x = true -> containsIgnoringCase x = true.
Proof.
  unfold operatorLikeName, containsIgnoringCase. intros H.
  repeat (apply orb_true_iff in H as [H|H]);
    apply str_includes_toLowerCase in H;
    match type of H with
    | str_includes ?l ?w = true =>
        let w' := eval vm_compute in w in change (str_includes l w' = true) in H
    end;
    rewrite H, ?orb_true_r; reflexivity.
Qed.

(** Lower-casing reaches the accented capitals of Latin-1 and leaves
    the multiplication sign and the sharp s alone. *)
Example str_toLowerCase_latin1 :
  FixableRule.str_toLowerCase
    (String (ascii_of_nat 201) (String (ascii_of_nat 215) (String (ascii_of_nat 223) "TaKe")))
  = String (ascii_of_nat 233) (String (ascii_of_nat 215) (String (ascii_of_nat 223) "take")).
Proof. vm_compute. reflexivity. Qed.

(** The names the specification lists. *)
Example heuristic_named_examples :
  operatorLikeName "destroyRef" = true /\
  operatorLikeName "unsubscribeAll" = true /\
  operatorLikeName "takeHandler" = true /\
  operatorLikeName "untilDestroyed" = true /\
  operatorLikeName "mapValue" = false.
Proof. vm_compute. repeat split. Qed.

Example heuristic_named_sites :
  let site x := subscribeOf (pipeOf this_observable [Identifier x]) [ArrowFunctionExpression] in
  onSubscribe create (site "destroyRef") = Normal [] /\
  onSubscribe create (site "unsubscribeAll") = Normal [] /\
  onSubscribe create (site "takeHandler") = Normal [] /\
  onSubscribe create (site "mapValue") = Normal [report (site "mapValue")].
Proof. vm_compute. repeat split. Qed.

(** C1: the bare identifier [firstTake] contains ["take"] when case is
    ignored, yet the callback of the classifier answers false on it and
    the subscribe call site is reported; the copy of the rule that
    lower-cases the name answers true. *)
Theorem C1_capitalised_take_is_missed :
  let arg := Identifier "firstTake" in
  let n := subscribeOf (pipeOf this_observable [arg]) [ArrowFunctionExpression] in
  containsIgnoringCase "firstTake" = true /\
  (forall d t, isTakeOperator d t arg = Normal false) /\
  (forall d t, checkForTakeOperatorsInPipe (receiver n) d t = Normal false) /\
  onSubscribe create n = Normal [report n] /\
  (forall d t, FixableRule.isTakeOperator d t arg = Normal true).
Proof.
  cbv zeta. split; [|split; [|split; [|split]]].
  - vm_compute. reflexivity.
  - intros d t. rewrite isTakeOperator_Identifier. vm_compute. reflexivity.
  - intros d t. rewrite checkForTakeOperatorsInPipe_eq. cbn [receiver subscribeOf
      CallExpression MemberExpression callee object pipeOf argumentsOf arguments some].
    rewrite isTakeOperator_Identifier. vm_compute. reflexivity.
  - vm_compute. reflexivity.
  - intros d t. rewrite FixableRule_isTakeOperator_Identifier. vm_compute. reflexivity.
Qed.

(** ** The cases of the rule's test suite *)

Example test_valid_takeUntilDestroyed :
  diagnosticsOf
    [VisitImport (mkImport "@angular/core/rxjs-interop"
                    [ImportSpecifier "takeUntilDestroyed" "takeUntilDestroyed"]);
     VisitNode (site_with (call "takeUntilDestroyed" []))]
  = Normal [].
Proof. vm_compute. reflexivity. Qed.

Example test_valid_renamed_import :
  diagnosticsOf [VisitImport import_tud; VisitNode (site_with (call "tud" []))]
  = Normal [].
Proof. vm_compute. reflexivity. Qed.

Example test_valid_variable_named_untilDestroyed :
  diagnosticsOf [VisitNode (site_with (Identifier "untilDestroyed"))] = Normal [].
Proof. vm_compute. reflexivity. Qed.

Example test_valid_takeUntil_without_import :
  diagnosticsOf [VisitNode (site_with (call "takeUntil" [Identifier "destroy$"]))]
  = Normal [].
Proof. vm_compute. reflexivity. Qed.

Example test_valid_renamed_takeUntil :
  diagnosticsOf
    [VisitImport import_tu;
     VisitNode (site_with (call "tu" [MemberExpression ThisExpression (Identifier "destroy$")]))]
  = Normal [].
Proof. vm_compute. reflexivity. Qed.

Example test_invalid_no_pipe :
  diagnosticsOf [VisitNode site_plain] = Normal [report site_plain].
Proof. vm_compute. reflexivity. Qed.

Example test_invalid_pipe_without_operator :
  let n := subscribeOf (pipeOf this_observable [map_f]) [ArrowFunctionExpression] in
  diagnosticsOf [VisitNode n] = Normal [report n].
Proof. vm_compute. reflexivity. Qed.

(** An alias is known only after its import has been visited. *)
Example alias_before_import :
  diagnosticsOf [VisitNode (site_with (call "tud" [])); VisitImport import_tud]
  = Normal [report (site_with (call "tud" []))].
Proof. vm_compute. reflexivity. Qed.

(** ** The scenarios of the specification, through the theorems *)

Lemma identOk_call (f : node) (args : list node) : identOk (CallExpression f args).
Proof. intros H. discriminate H. Qed.

Lemma binds_ImportSpecifier (e l : string) : binds (ImportSpecifier e l) e l.
Proof. split; [reflexivity|]. split; [|reflexivity]. eexists; split; reflexivity. Qed.

Lemma directCallTo_call (l : string) (args : list node) : directCallTo l (call l args).
Proof. split; [reflexivity|]. eexists; repeat split; reflexivity. Qed.

Lemma C2_witness :
  "tud" ∈ takeUntilDestroyedAliases (ImportDeclaration create import_tud) /\
  onSubscribe (ImportDeclaration create import_tud) (site_with (call "tud" []))
  = Normal [].
Proof.
  pose proof (C2_destroy_alias_is_recognised
                create (ImportDeclaration create import_tud) import_tud
                (ImportSpecifier "takeUntilDestroyed" "tud") "tud" [] []
                (site_with (call "tud" []))
                (pipeOf this_observable [map_f; call "tud" []])
                (call "tud" []) [map_f] []) as H.
  destruct H as (H1 & _ & H3 & _).
  - reflexivity.
  - left; reflexivity.
  - apply binds_ImportSpecifier.
  - reflexivity.
  - reflexivity.
  - reflexivity.
  - reflexivity.
  - reflexivity.
  - apply directCallTo_call.
  - constructor; [apply identOk_call | constructor].
  - split; [exact H1 | exact H3].
Defined.

Lemma C3_witness :
  checkForTakeOperatorsInPipe
    (Some (pipeOf this_observable [map_f; call "tu" [this_observable]]))
    (takeUntilDestroyedAliases (ImportDeclaration create import_tu))
    (rxjsTakeOperatorAliases (ImportDeclaration create import_tu))
  = checkForTakeOperatorsInPipe
    (Some (pipeOf this_observable [map_f; call "takeUntil" [this_observable]]))
    (takeUntilDestroyedAliases (ImportDeclaration create import_tu))
    (rxjsTakeOperatorAliases (ImportDeclaration create import_tu)).
Proof.
  pose proof (C3_take_alias_same_as_canonical
                [] [] [] [] create (ImportDeclaration create import_tu) import_tu
                (ImportSpecifier "takeUntil" "tu") "takeUntil" "tu"
                (pipeOf this_observable [map_f; call "tu" [this_observable]])
                (pipeOf this_observable [map_f; call "takeUntil" [this_observable]])
                (call "tu" [this_observable]) (call "takeUntil" [this_observable])
                [map_f] []) as H.
  cbv zeta in H. destruct H as (_ & _ & _ & H).
  - reflexivity.
  - left; reflexivity.
  - left; reflexivity.
  - left; reflexivity.
  - apply binds_ImportSpecifier.
  - reflexivity.
  - apply directCallTo_call.
  - apply directCallTo_call.
  - reflexivity.
  - reflexivity.
  - exact H.
Defined.

Lemma one_diagnostic_iff_no_match_witness :
  onSubscribe create site_plain
  = Normal [mkDiagnostic site_plain "missingTakeUntilDestroyed"].
Proof.
  destruct (one_diagnostic_iff_no_match create site_plain) as (H & _ & _).
  - reflexivity.
  - constructor.
  - apply H. left. intros p Hp. injection Hp as <-. reflexivity.
Defined.

Lemma one_matching_argument_suffices_witness :
  onSubscribe create (site_with (call "takeUntilDestroyed" [])) = Normal [].
Proof.
  destruct (one_matching_argument_suffices
              create (site_with (call "takeUntilDestroyed" []))
              (pipeOf this_observable [map_f; call "takeUntilDestroyed" []])
              (call "takeUntilDestroyed" []) [map_f] []) as (_ & H & _).
  - reflexivity.
  - reflexivity.
  - reflexivity.
  - reflexivity.
  - constructor; [apply identOk_call | constructor].
  - vm_compute. reflexivity.
  - exact H.
Defined.

Lemma C6_witness :
  onSubscribe create site_empty_pipe = Normal [report site_empty_pipe].
Proof.
  destruct (C6_empty_pipe_is_reported create site_empty_pipe
              (pipeOf this_observable [])) as (_ & _ & H).
  - reflexivity.
  - apply H; reflexivity.
Defined.

Lemma C7_witness :
  exists ds, onSubscribe create (site_with (Identifier "untilDestroyed")) = Normal ds.
Proof.
  destruct C7_locator_and_classifier_total
    as (_ & _ & _ & _ & _ & _ & _ & _ & _ & _ & _ & H).
  apply H.
  - reflexivity.
  - constructor; [apply identOk_call|].
    constructor; [intros _; cbn; eauto | constructor].
Defined.

Lemma C8_witness :
  "takeUntil" ∈ rxjsTakeOperatorAliases (ImportDeclaration create import_tu) /\
  "tu" ∈ rxjsTakeOperatorAliases (ImportDeclaration create import_tu).
Proof.
  destruct C8_alias_sets_seeded_and_append_only
    as (_ & _ & Hseed & Himp & _).
  split.
  - apply (Himp create import_tu "takeUntil"). apply Hseed. left. reflexivity.
  - apply (ImportDeclaration_take create import_tu (ImportSpecifier "takeUntil" "tu")
             "takeUntil" "tu").
    + left; reflexivity.
    + left; reflexivity.
    + left; reflexivity.
    + apply binds_ImportSpecifier.
Defined.

Lemma C10_witness :
  ImportDeclaration create
    (mkImport "rxjs" [ImportSpecifier "takeUntilDestroyed" "tud"]) = create /\
  ImportDeclaration create
    (mkImport "@angular/core/rxjs-interop" [ImportSpecifier "takeUntil" "tu"]) = create /\
  ImportDeclaration create
    (mkImport "@angular/core" [ImportSpecifier "takeUntilDestroyed" "tud"]) = create /\
  ImportDeclaration create
    (mkImport "rxjs" [ImportDefaultSpecifier "take"; ImportNamespaceSpecifier "ops"])
  = create.
Proof.
  split; [|split; [|split]].
  - destruct (C10_mismatched_import_registers_nothing create
                (mkImport "rxjs" [ImportSpecifier "takeUntilDestroyed" "tud"]))
      as (_ & H & _).
    apply H.
    + left; reflexivity.
    + intros sp [<-|[]]. reflexivity.
  - destruct (C10_mismatched_import_registers_nothing create
                (mkImport "@angular/core/rxjs-interop" [ImportSpecifier "takeUntil" "tu"]))
      as (_ & _ & H & _).
    apply H.
    + reflexivity.
    + intros sp [<-|[]]. exists "takeUntil". split; [left|]; reflexivity.
  - destruct (C10_mismatched_import_registers_nothing create
                (mkImport "@angular/core" [ImportSpecifier "takeUntilDestroyed" "tud"]))
      as (_ & _ & _ & H & _).
    apply H; discriminate.
  - destruct (C10_mismatched_import_registers_nothing create
                (mkImport "rxjs" [ImportDefaultSpecifier "take";
                                  ImportNamespaceSpecifier "ops"]))
      as (_ & _ & _ & _ & H).
    apply H. intros sp [<-|[<-|[]]]; discriminate.
Defined.

(** ** The classifier reads the two sets as one *)

Lemma has_union (d t : gset string) (x : option string) :
  has (d ∪ t) x = has d x || has t x.
Proof.
  destruct x as [x|]; cbn; [|reflexivity].
  rewrite <- bool_decide_or. apply bool_decide_ext, elem_of_union.
Qed.

Lemma some_ext {A} (f g : A -> completion bool) (l : list A) :
  (forall a, In a l -> f a = g a) -> some f l = some g l.
Proof.
  induction l as [|x l IH]; cbn; [reflexivity|]. intros H.
  rewrite <- (H x (or_introl eq_refl)).
  destruct (f x) as [[|]|]; [reflexivity | | reflexivity].
  apply IH. intros a Ha. apply H. right. exact Ha.
Qed.

Lemma matchesRule_union (d t : gset string) (a : node) :
  matchesRule d t a = matchesRule (d ∪ t) ∅ a.
Proof.
  unfold matchesRule, directCall, memberCall.
  destruct (callee a) as [c|]; [|reflexivity].
  rewrite (known_empty (d ∪ t) (name c)). unfold known at 1. rewrite has_union.
  destruct (property c) as [q|]; [|reflexivity].
  rewrite (known_empty (d ∪ t) (name q)). unfold known. rewrite has_union.
  reflexivity.
Qed.

(** X1: the classifier depends on the two alias sets through their union
    only: it returns what the function kept for backward compatibility
    returns on the union, and swapping the two sets changes nothing. *)
Theorem classifier_reads_the_union (pipeCall : value) (d t : gset string) :
  checkForTakeOperatorsInPipe pipeCall d t
  = checkForTakeUntilDestroyedInPipe pipeCall (d ∪ t) /\
  checkForTakeOperatorsInPipe pipeCall d t
  = checkForTakeOperatorsInPipe pipeCall t d.
Proof.
  assert (H : forall d t, checkForTakeOperatorsInPipe pipeCall d t
                          = checkForTakeUntilDestroyedInPipe pipeCall (d ∪ t)).
  { intros d' t'. unfold checkForTakeUntilDestroyedInPipe.
    rewrite !checkForTakeOperatorsInPipe_eq.
    destruct pipeCall as [p|]; [|reflexivity].
    apply some_ext. intros a _.
    rewrite !isTakeOperator_eq, matchesRule_union. reflexivity. }
  split; [apply H|].
  rewrite (H d t), (H t d). f_equal. apply union_comm_L.
Qed.

(** ** Exactly which names an import registers *)

Lemma addDestroyAlias_elem (s : gset string) (sp : specifier) (x : string) :
  x ∈ addDestroyAlias s sp <-> x ∈ s \/ binds sp "takeUntilDestroyed" x.
Proof.
  split.
  - intros Hx.
    unfold addDestroyAlias in Hx.
    destruct (String.eqb_spec (spec_type sp) "ImportSpecifier") as [Hty|_];
      cbn in Hx; [|left; exact Hx].
    destruct (imported sp) as [i|] eqn:Hi; [|left; exact Hx].
    destruct (name i) as [e|] eqn:He; cbn in Hx; [|left; exact Hx].
    destruct (String.eqb_spec e "takeUntilDestroyed") as [->|_]; [|left; exact Hx].
    apply elem_of_union in Hx as [Hx|Hx]; [|left; exact Hx].
    apply elem_of_singleton in Hx. right. unfold binds. eauto 10.
  - intros [Hx|Hb].
    + apply addDestroyAlias_grows, Hx.
    + apply addDestroyAlias_binds, Hb.
Qed.

Lemma addTakeAlias_elem (s : gset string) (sp : specifier) (x : string) :
  x ∈ addTakeAlias s sp <->
  x ∈ s \/ exists e, In e ["takeUntil"; "takeWhile"; "take"; "takeLast"] /\ binds sp e x.
Proof.
  split.
  - intros Hx. unfold addTakeAlias in Hx.
    destruct (String.eqb_spec (spec_type sp) "ImportSpecifier") as [Hty|_];
      cbn in Hx; [|left; exact Hx].
    destruct (imported sp) as [i|] eqn:Hi; [|left; exact Hx].
    destruct (name i) as [e|] eqn:He; cbn in Hx; [|left; exact Hx].
    destruct (bool_decide_reflect (e ∈ rxjsTakeOperators)) as [Hin|_];
      [|left; exact Hx].
    apply elem_of_union in Hx as [Hx|Hx]; [|left; exact Hx].
    apply elem_of_singleton in Hx. right. exists e. split.
    + apply rxjsTakeOperators_elem, Hin.
    + unfold binds. eauto 10.
  - intros [Hx|(e & He & Hb)].
    + apply addTakeAlias_grows, Hx.
    + apply (addTakeAlias_binds s sp e x); [|exact Hb].
      apply rxjsTakeOperators_elem, He.
Qed.

Lemma fold_left_elem (f : gset string -> specifier -> gset string)
    (P : specifier -> string -> Prop)
    (Hf : forall s sp x, x ∈ f s sp <-> x ∈ s \/ P sp x)
    (l : list specifier) (s : gset string) (x : string) :
  x ∈ fold_left f l s <-> x ∈ s \/ exists sp, In sp l /\ P sp x.
Proof.
  revert s. induction l as [|sp l IH]; intros s; cbn.
  - split; [tauto | intros [H|(sp & [] & _)]; exact H].
  - rewrite IH, Hf. split.
    + intros [[H|H]|(sp' & Hin & H)]; eauto 6.
    + intros [H|(sp' & [<-|Hin] & H)]; eauto 6.
Qed.

Lemma ImportDeclaration_destroy_elem (st : state) (imp : importDeclaration) (x : string) :
  x ∈ takeUntilDestroyedAliases (ImportDeclaration st imp) <->
  x ∈ takeUntilDestroyedAliases st \/ givesDestroyAlias imp x.
Proof.
  unfold ImportDeclaration, givesDestroyAlias; cbn.
  destruct (String.eqb_spec (source imp) "@angular/core/rxjs-interop") as [Hs|Hs].
  - rewrite (fold_left_elem addDestroyAlias
               (fun sp x => binds sp "takeUntilDestroyed" x) addDestroyAlias_elem).
    tauto.
  - tauto.
Qed.

Lemma ImportDeclaration_take_elem (st : state) (imp : importDeclaration) (x : string) :
  x ∈ rxjsTakeOperatorAliases (ImportDeclaration st imp) <->
  x ∈ rxjsTakeOperatorAliases st \/ givesTakeAlias imp x.
Proof.
  unfold ImportDeclaration, givesTakeAlias; cbn.
  destruct (String.eqb_spec (source imp) "rxjs") as [Hs|Hs]; cbn.
  - rewrite (fold_left_elem addTakeAlias
               (fun sp x => exists e, In e ["takeUntil"; "takeWhile"; "take"; "takeLast"]
                                      /\ binds sp e x) addTakeAlias_elem).
    split.
    + intros [H|(sp & Hin & e & He & Hb)]; [left; exact H|].
      right. split; [left; exact Hs|]. exists sp, e. split; [exact Hin | split; [exact He | exact Hb]].
    + intros [H|(_ & sp & e & Hin & He & Hb)]; [left; exact H|].
      right. exists sp. split; [exact Hin|]. exists e. split; [exact He | exact Hb].
  - destruct (String.eqb_spec (source imp) "rxjs/operators") as [Hs'|Hs'].
    + rewrite (fold_left_elem addTakeAlias
                 (fun sp x => exists e, In e ["takeUntil"; "takeWhile"; "take"; "takeLast"]
                                        /\ binds sp e x) addTakeAlias_elem).
      split.
      * intros [H|(sp & Hin & e & He & Hb)]; [left; exact H|].
        right. split; [right; exact Hs'|]. exists sp, e. split; [exact Hin | split; [exact He | exact Hb]].
      * intros [H|(_ & sp & e & Hin & He & Hb)]; [left; exact H|].
        right. exists sp. split; [exact Hin|]. exists e. split; [exact He | exact Hb].
    + tauto.
Qed.

(** X2: after an import declaration a name is a destroy alias exactly
    when it was one before or the declaration imports
    [takeUntilDestroyed] under that name from
    [@angular/core/rxjs-interop], and it is a take alias exactly when it
    was one before or the declaration imports one of the four take
    operators under that name from [rxjs] or [rxjs/operators]. *)
Theorem import_registers_exactly (st : state) (imp : importDeclaration) (x : string) :
  (x ∈ takeUntilDestroyedAliases (ImportDeclaration st imp) <->
   x ∈ takeUntilDestroyedAliases st \/ givesDestroyAlias imp x) /\
  (x ∈ rxjsTakeOperatorAliases (ImportDeclaration st imp) <->
   x ∈ rxjsTakeOperatorAliases st \/ givesTakeAlias imp x).
Proof.
  split; [apply ImportDeclaration_destroy_elem | apply ImportDeclaration_take_elem].
Qed.

Lemma traverse_elem (vs : list visited) (st st' : state) (ds : list diagnostic)
    (x : string) :
  traverse st vs = Normal (st', ds) ->
  (x ∈ takeUntilDestroyedAliases st' <->
   x ∈ takeUntilDestroyedAliases st \/
   exists imp, In imp (importsOf vs) /\ givesDestroyAlias imp x) /\
  (x ∈ rxjsTakeOperatorAliases st' <->
   x ∈ rxjsTakeOperatorAliases st \/
   exists imp, In imp (importsOf vs) /\ givesTakeAlias imp x).
Proof.
  revert st st' ds. induction vs as [|v vs IH]; intros st st' ds; cbn.
  - intros [= <- _]. split; (split; [tauto | intros [H|(imp & [] & _)]; exact H]).
  - destruct (visit st v) as [[st1 ds1]|] eqn:Hv; cbn; [|discriminate].
    destruct (traverse st1 vs) as [[st2 ds2]|] eqn:Ht; cbn; [|discriminate].
    intros [= <- _]. destruct (IH st1 st2 ds2 Ht) as [IHd IHt].
    destruct v as [imp|n]; cbn in Hv.
    + injection Hv as <- _. rewrite IHd, IHt.
      rewrite ImportDeclaration_destroy_elem, ImportDeclaration_take_elem. cbn.
      split; split.
      * intros [[H|H]|(i & Hin & H)]; eauto 6.
      * intros [H|(i & [<-|Hin] & H)]; eauto 6.
      * intros [[H|H]|(i & Hin & H)]; eauto 6.
      * intros [H|(i & [<-|Hin] & H)]; eauto 6.
    + assert (st1 = st) as ->.
      { destruct (isSubscribeCall n); [|congruence].
        destruct (onSubscribe st n); cbn in Hv; congruence. }
      exact (conj IHd IHt).
Qed.

(** X3: at the end of a pass the destroy aliases are [takeUntilDestroyed]
    and the names under which a visited import declaration brings it in
    from [@angular/core/rxjs-interop], and nothing else; the take aliases
    are the four operator names and the names under which a visited
    declaration brings one of them in from [rxjs] or [rxjs/operators],
    and nothing else. *)
Theorem pass_aliases_exactly (vs : list visited) (st : state)
    (ds : list diagnostic) (x : string) :
  lint vs = Normal (st, ds) ->
  (x ∈ takeUntilDestroyedAliases st <->
   x = "takeUntilDestroyed" \/
   exists imp, In imp (importsOf vs) /\ givesDestroyAlias imp x) /\
  (x ∈ rxjsTakeOperatorAliases st <->
   In x ["takeUntil"; "takeWhile"; "take"; "takeLast"] \/
   exists imp, In imp (importsOf vs) /\ givesTakeAlias imp x).
Proof.
  intros Hl. destruct (traverse_elem vs create st ds x Hl) as [Hd Ht].
  rewrite Hd, Ht. cbn [create takeUntilDestroyedAliases rxjsTakeOperatorAliases].
  rewrite elem_of_singleton, rxjsTakeOperators_elem. tauto.
Qed.

Lemma state_eq (a b : state) :
  (forall x, x ∈ takeUntilDestroyedAliases a <-> x ∈ takeUntilDestroyedAliases b) ->
  (forall x, x ∈ rxjsTakeOperatorAliases a <-> x ∈ rxjsTakeOperatorAliases b) ->
  a = b.
Proof.
  destruct a as [d t], b as [d' t']; cbn. intros Hd Ht.
  f_equal; apply leibniz_equiv, set_equiv; assumption.
Qed.

(** X4: import declarations can be visited in any order and any number
    of times: the handler commutes with itself and is idempotent. *)
Theorem imports_commute_and_are_idempotent (st : state) (a b : importDeclaration) :
  ImportDeclaration (ImportDeclaration st a) b
  = ImportDeclaration (ImportDeclaration st b) a /\
  ImportDeclaration (ImportDeclaration st a) a = ImportDeclaration st a.
Proof.
  split; apply state_eq; intros x;
    rewrite ?ImportDeclaration_destroy_elem, ?ImportDeclaration_take_elem; tauto.
Qed.

(** ** More aliases, fewer reports *)

Lemma some_mono {A} (f g : A -> completion bool) (l : list A) :
  (forall a, f a = Normal true -> g a = Normal true) ->
  (forall a, f a = Normal false -> exists b, g a = Normal b) ->
  some f l = Normal true -> some g l = Normal true.
Proof.
  intros Ht Hf. induction l as [|x l IH]; cbn; [discriminate|].
  destruct (f x) as [[|]|] eqn:Hx; [| |discriminate].
  - rewrite (Ht x Hx). reflexivity.
  - destruct (Hf x Hx) as [[|] ->]; [reflexivity | exact IH].
Qed.

Lemma has_mono (s s' : gset string) (x : option string) :
  s ⊆ s' -> has s x = true -> has s' x = true.
Proof.
  intros Hs. destruct x as [x|]; cbn; [|discriminate].
  intros H. apply bool_decide_eq_true in H.
  apply bool_decide_eq_true_2, Hs, H.
Qed.

Lemma known_mono (d t d' t' : gset string) (x : option string) :
  d ⊆ d' -> t ⊆ t' -> known d t x = true -> known d' t' x = true.
Proof.
  unfold known. intros Hd Ht H. apply orb_true_iff in H as [H|H].
  - rewrite (has_mono d d' x Hd H). reflexivity.
  - rewrite (has_mono t t' x Ht H). apply orb_true_r.
Qed.

Lemma directCall_mono (d t d' t' : gset string) (a : node) :
  d ⊆ d' -> t ⊆ t' -> directCall d t a = true -> directCall d' t' a = true.
Proof.
  intros Hd Ht. unfold directCall.
  destruct (String.eqb (type a) "CallExpression"); [cbn|discriminate].
  destruct (callee a) as [c|]; [|discriminate].
  destruct (String.eqb (type c) "Identifier"); [cbn|discriminate].
  apply known_mono; assumption.
Qed.

Lemma memberCall_mono (d t d' t' : gset string) (a : node) :
  d ⊆ d' -> t ⊆ t' -> memberCall d t a = true -> memberCall d' t' a = true.
Proof.
  intros Hd Ht. unfold memberCall.
  destruct (String.eqb (type a) "CallExpression"); [cbn|discriminate].
  destruct (callee a) as [c|]; [|discriminate].
  destruct (String.eqb (type c) "MemberExpression"); [cbn|discriminate].
  destruct (property c) as [q|]; [|discriminate].
  apply known_mono; assumption.
Qed.

Lemma matchesRule_mono (d t d' t' : gset string) (a : node) :
  d ⊆ d' -> t ⊆ t' -> matchesRule d t a = true -> matchesRule d' t' a = true.
Proof.
  intros Hd Ht. unfold matchesRule. intros H.
  apply orb_true_iff in H as [H|H]; [apply orb_true_iff in H as [H|H]|].
  - rewrite (directCall_mono d t d' t' a Hd Ht H). reflexivity.
  - rewrite H. apply orb_true_iff. left. apply orb_true_r.
  - rewrite (memberCall_mono d t d' t' a Hd Ht H). apply orb_true_r.
Qed.

Lemma isTakeOperator_mono (d t d' t' : gset string) (a : node) :
  d ⊆ d' -> t ⊆ t' ->
  (isTakeOperator d t a = Normal true -> isTakeOperator d' t' a = Normal true) /\
  (isTakeOperator d t a = Normal false -> exists b, isTakeOperator d' t' a = Normal b).
Proof.
  intros Hd Ht. rewrite !isTakeOperator_eq.
  destruct (String.eqb (type a) "Identifier" && _); [split; discriminate|].
  split.
  - intros [= H]. rewrite (matchesRule_mono d t d' t' a Hd Ht H). reflexivity.
  - eauto.
Qed.

Lemma onSubscribe_cases (st : state) (n : node) :
  onSubscribe st n =
  match callee n with
  | None => TypeError
  | Some c =>
      match object c with
      | Some p =>
          if isPipeCall p then
            match some (isTakeOperator (takeUntilDestroyedAliases st)
                                       (rxjsTakeOperatorAliases st)) (argumentsOf p) with
            | Normal true => Normal []
            | Normal false => Normal [report n]
            | TypeError => TypeError
            end
          else Normal [report n]
      | None => Normal [report n]
      end
  end.
Proof.
  destruct (callee n) as [c|] eqn:Hc.
  - rewrite (onSubscribe_eq st n) by (rewrite Hc; eauto).
    unfold receiver. rewrite Hc.
    destruct (object c) as [p|]; [|reflexivity].
    destruct (isPipeCall p); [|reflexivity].
    destruct (some _ _) as [[|]|]; reflexivity.
  - unfold onSubscribe. rewrite Hc. reflexivity.
Qed.

(** X5: a subscribe call site that is not reported in a state is not
    reported in any state with more aliases; visiting further import
    declarations never turns an accepted site into a reported one. *)
Theorem more_aliases_never_add_reports (st st' : state) (n : node) :
  state_le st st' ->
  onSubscribe st n = Normal [] ->
  onSubscribe st' n = Normal [].
Proof.
  intros [Hd Ht]. rewrite !onSubscribe_cases.
  destruct (callee n) as [c|]; [|discriminate].
  destruct (object c) as [p|]; [|discriminate].
  destruct (isPipeCall p); [|discriminate].
  destruct (some _ (argumentsOf p)) as [[|]|] eqn:Hs; try discriminate.
  intros _.
  rewrite (some_mono _ (isTakeOperator (takeUntilDestroyedAliases st')
                                       (rxjsTakeOperatorAliases st')) _
             (fun a => proj1 (isTakeOperator_mono _ _ _ _ a Hd Ht))
             (fun a => proj2 (isTakeOperator_mono _ _ _ _ a Hd Ht)) Hs).
  reflexivity.
Qed.

Lemma more_aliases_never_add_reports_witness :
  onSubscribe (ImportDeclaration create import_tud)
    (site_with (call "takeUntil" [Identifier "destroy$"])) = Normal [].
Proof.
  apply (more_aliases_never_add_reports create).
  - apply ImportDeclaration_grows.
  - vm_compute. reflexivity.
Defined.

(** ** Names that are accepted as calls *)

Lemma isTakeOperator_memberCallTo (d t : gset string) (l : string) (a : node) :
  memberCallTo l a -> l ∈ d \/ l ∈ t -> isTakeOperator d t a = Normal true.
Proof.
  intros (Hty & c & q & Hc & Hcty & Hq & Hn) Hin.
  rewrite isTakeOperator_eq, Hty. cbn.
  unfold matchesRule, directCall, heuristicName, memberCall, known.
  rewrite Hty, Hc, Hcty, Hq, Hn. cbn.
  assert (Hk : bool_decide (l ∈ d) || bool_decide (l ∈ t) = true).
  { destruct Hin as [Hin|Hin]; rewrite (bool_decide_eq_true_2 _ Hin);
      [reflexivity | apply orb_true_r]. }
  rewrite Hk. reflexivity.
Qed.

Lemma onSubscribe_hit (st : state) (n p a : node) (pre post : list node) :
  isSubscribeCall n = true ->
  receiver n = Some p ->
  isPipeCall p = true ->
  arguments p = Some (pre ++ a :: post) ->
  Forall identOk pre ->
  isTakeOperator (takeUntilDestroyedAliases st) (rxjsTakeOperatorAliases st) a
  = Normal true ->
  onSubscribe st n = Normal [].
Proof.
  intros Hsub Hr Hp Hargs Hpre Ha.
  rewrite (onSubscribe_eq st n (isSubscribeCall_callee n Hsub)), Hr, Hp.
  unfold argumentsOf. rewrite Hargs.
  rewrite (some_isTakeOperator_hit _ _ pre post a Hpre Ha). reflexivity.
Qed.

Lemma lint_seeds (vs : list visited) (st : state) (ds : list diagnostic) (E : string) :
  lint vs = Normal (st, ds) ->
  In E ["takeUntilDestroyed"; "takeUntil"; "takeWhile"; "take"; "takeLast"] ->
  E ∈ takeUntilDestroyedAliases st \/ E ∈ rxjsTakeOperatorAliases st.
Proof.
  intros Hl HE. destruct (traverse_grows vs create st ds Hl) as [Hd Ht].
  destruct HE as [<-|HE].
  - left. apply Hd. cbn. apply elem_of_singleton. reflexivity.
  - right. apply Ht. cbn. apply rxjsTakeOperators_elem, HE.
Qed.

(** X6: at any point of a pass, whatever has been imported, a call of
    [takeUntilDestroyed], [takeUntil], [takeWhile], [take] or [takeLast]
    among the arguments of the pipe call, written as a direct call or as
    a call through any member access, keeps the site from being
    reported: the rule does not ask where the name comes from. *)
Theorem canonical_operators_always_accepted
    (vs : list visited) (st : state) (ds : list diagnostic) (E : string)
    (n p a : node) (pre post : list node) :
  lint vs = Normal (st, ds) ->
  In E ["takeUntilDestroyed"; "takeUntil"; "takeWhile"; "take"; "takeLast"] ->
  isSubscribeCall n = true ->
  receiver n = Some p ->
  isPipeCall p = true ->
  arguments p = Some (pre ++ a :: post) ->
  Forall identOk pre ->
  directCallTo E a \/ memberCallTo E a ->
  onSubscribe st n = Normal [].
Proof.
  intros Hl HE Hsub Hr Hp Hargs Hpre Ha.
  apply (onSubscribe_hit st n p a pre post); try assumption.
  pose proof (lint_seeds vs st ds E Hl HE) as Hin.
  destruct Ha as [Ha|Ha].
  - apply (isTakeOperator_directCallTo _ _ E a Ha Hin).
  - apply (isTakeOperator_memberCallTo _ _ E a Ha Hin).
Qed.

(** X7: once an import declaration has registered a local name, as a
    destroy alias or as a take alias, a call of that name through any
    member access among the arguments of a later pipe call keeps the
    site from being reported. *)
Theorem aliased_member_call_accepted
    (st st' : state) (imp : importDeclaration) (L : string)
    (later : list visited) (ds : list diagnostic)
    (n p a : node) (pre post : list node) :
  givesDestroyAlias imp L \/ givesTakeAlias imp L ->
  traverse (ImportDeclaration st imp) later = Normal (st', ds) ->
  isSubscribeCall n = true ->
  receiver n = Some p ->
  isPipeCall p = true ->
  arguments p = Some (pre ++ a :: post) ->
  Forall identOk pre ->
  memberCallTo L a ->
  onSubscribe st' n = Normal [].
Proof.
  intros Himp Htr Hsub Hr Hp Hargs Hpre Ha.
  apply (onSubscribe_hit st' n p a pre post); try assumption.
  apply (isTakeOperator_memberCallTo _ _ L a Ha).
  destruct (traverse_grows later _ _ _ Htr) as [Hd Ht].
  destruct Himp as [Hg|Hg].
  - left. apply Hd, ImportDeclaration_destroy_elem. right. exact Hg.
  - right. apply Ht, ImportDeclaration_take_elem. right. exact Hg.
Qed.

(** ** The three versions of the classifier *)

Lemma FixableRule_isTakeOperator_eq (d t : gset string) (a : node) :
  FixableRule.isTakeOperator d t a =
  if nameless a then TypeError else Normal (matchesFixableRule d t a).
Proof.
  destruct a as [ty nm c ob pr ar].
  unfold FixableRule.isTakeOperator, matchesFixableRule, directCall,
    heuristicNameIgnoringCase, memberCall, known, nameless.
  cbn.
  destruct (String.eqb_spec ty "CallExpression") as [->|Hc]; cbn.
  - destruct c as [c|]; cbn; [|reflexivity].
    destruct (String.eqb (type c) "Identifier"); cbn.
    + destruct (has d (name c) || has t (name c)); cbn; [reflexivity|].
      destruct (String.eqb (type c) "MemberExpression"); cbn; [|reflexivity].
      destruct (property c) as [q|]; cbn; [|reflexivity].
      destruct (has d (name q) || has t (name q)); reflexivity.
    + destruct (String.eqb (type c) "MemberExpression"); cbn; [|reflexivity].
      destruct (property c) as [q|]; cbn; [|reflexivity].
      destruct (has d (name q) || has t (name q)); reflexivity.
  - destruct (String.eqb ty "Identifier"); cbn; [|reflexivity].
    destruct nm as [x|]; cbn; [|reflexivity].
    unfold containsIgnoringCase.
    destruct (str_includes _ "destroy"); cbn; [reflexivity|].
    destruct (str_includes _ "unsubscribe"); cbn; [reflexivity|].
    destruct (str_includes _ "take"); reflexivity.
Qed.

Lemma OriginalRule_isTakeUntilDestroyed_eq (d : gset string) (a : node) :
  OriginalRule.isTakeUntilDestroyed d a =
  if nameless a then TypeError else Normal (matchesOriginalRule d a).
Proof.
  destruct a as [ty nm c ob pr ar].
  unfold OriginalRule.isTakeUntilDestroyed, matchesOriginalRule, directCall,
    originalHeuristic, memberCall, nameless.
  cbn.
  destruct (String.eqb_spec ty "CallExpression") as [->|Hc]; cbn.
  - destruct c as [c|]; cbn; [|reflexivity].
    rewrite (known_empty d (name c)).
    destruct (String.eqb (type c) "Identifier"); cbn.
    + destruct (has d (name c)); cbn; [reflexivity|].
      destruct (String.eqb (type c) "MemberExpression"); cbn; [|reflexivity].
      destruct (property c) as [q|]; cbn; [|reflexivity].
      rewrite (known_empty d (name q)).
      destruct (has d (name q)); reflexivity.
    + destruct (String.eqb (type c) "MemberExpression"); cbn; [|reflexivity].
      destruct (property c) as [q|]; cbn; [|reflexivity].
      rewrite (known_empty d (name q)).
      destruct (has d (name q)); reflexivity.
  - destruct (String.eqb ty "Identifier"); cbn; [|reflexivity].
    destruct nm as [x|]; cbn; [|reflexivity].
    unfold originalName.
    destruct (str_includes x "destroy"); cbn; [reflexivity|].
    destruct (str_includes x "Destroy"); cbn; [reflexivity|].
    destruct (str_includes x "unsubscribe"); cbn; [reflexivity|].
    destruct (str_includes x "Unsubscribe"); reflexivity.
Qed.

Lemma isTakeOperator_nameless_eq (d t : gset string) (a : node) :
  isTakeOperator d t a =
  if nameless a then TypeError else Normal (matchesRule d t a).
Proof. apply isTakeOperator_eq. Qed.

Lemma FixableRule_checkForTakeOperatorsInPipe_eq (d t : gset string) (v : value) :
  FixableRule.checkForTakeOperatorsInPipe v d t =
  some (FixableRule.isTakeOperator d t) (argumentsOfValue v).
Proof.
  destruct v as [p|]; cbn; [|reflexivity].
  unfold FixableRule.checkForTakeOperatorsInPipe, noArguments, argumentsOf; cbn.
  destruct (arguments p) as [[|a l]|]; cbn; reflexivity.
Qed.

Lemma OriginalRule_checkForTakeUntilDestroyedInPipe_eq (d : gset string) (v : value) :
  OriginalRule.checkForTakeUntilDestroyedInPipe v d =
  some (OriginalRule.isTakeUntilDestroyed d) (argumentsOfValue v).
Proof.
  destruct v as [p|]; cbn; [|reflexivity].
  unfold OriginalRule.checkForTakeUntilDestroyedInPipe, noArguments, argumentsOf; cbn.
  destruct (arguments p) as [[|a l]|]; cbn; reflexivity.
Qed.

Lemma checkForTakeOperatorsInPipe_some (d t : gset string) (v : value) :
  checkForTakeOperatorsInPipe v d t = some (isTakeOperator d t) (argumentsOfValue v).
Proof. rewrite checkForTakeOperatorsInPipe_eq. destruct v; reflexivity. Qed.

Lemma some_false_transfer {A} (f g : A -> completion bool) (l : list A) :
  (forall a, f a = Normal false -> g a = Normal false) ->
  some f l = Normal false -> some g l = Normal false.
Proof.
  intros H. induction l as [|x l IH]; cbn; [reflexivity|].
  destruct (f x) as [[|]|] eqn:Hx; try discriminate.
  rewrite (H x Hx). exact IH.
Qed.

Lemma matchesRule_matchesFixableRule (d t : gset string) (a : node) :
  matchesRule d t a = true -> matchesFixableRule d t a = true.
Proof.
  unfold matchesRule, matchesFixableRule. intros H.
  apply orb_true_iff in H as [H|H]; [apply orb_true_iff in H as [H|H]|].
  - rewrite H. reflexivity.
  - apply orb_true_iff. left. apply orb_true_iff. right.
    unfold heuristicName in H. unfold heuristicNameIgnoringCase.
    apply andb_true_iff in H as [Hty H]. rewrite Hty. cbn.
    destruct (name a) as [x|]; [|discriminate].
    apply operatorLikeName_containsIgnoringCase, H.
  - rewrite H. apply orb_true_r.
Qed.

Lemma originalName_operatorLikeName (x : string) :
  originalName x = true -> operatorLikeName x = true.
Proof. unfold originalName, operatorLikeName. intros ->. reflexivity. Qed.

Lemma matchesOriginalRule_matchesRule (d : gset string) (a : node) :
  matchesOriginalRule d a = true -> matchesRule d ∅ a = true.
Proof.
  unfold matchesOriginalRule, matchesRule. intros H.
  apply orb_true_iff in H as [H|H]; [apply orb_true_iff in H as [H|H]|].
  - rewrite H. reflexivity.
  - apply orb_true_iff. left. apply orb_true_iff. right.
    unfold originalHeuristic in H. unfold heuristicName.
    apply andb_true_iff in H as [Hty H]. rewrite Hty. cbn.
    destruct (name a) as [x|]; [|discriminate].
    apply originalName_operatorLikeName, H.
  - rewrite H. apply orb_true_r.
Qed.

Lemma FixableRule_pointwise (d t : gset string) (a : node) :
  (isTakeOperator d t a = Normal true ->
   FixableRule.isTakeOperator d t a = Normal true) /\
  (isTakeOperator d t a = Normal false ->
   exists b, FixableRule.isTakeOperator d t a = Normal b) /\
  (FixableRule.isTakeOperator d t a = Normal false ->
   isTakeOperator d t a = Normal false).
Proof.
  rewrite isTakeOperator_nameless_eq, FixableRule_isTakeOperator_eq.
  destruct (nameless a); [repeat split; discriminate|].
  pose proof (matchesRule_matchesFixableRule d t a) as H.
  repeat split.
  - intros [= Hm]. rewrite (H Hm). reflexivity.
  - eauto.
  - intros [= Hf]. destruct (matchesRule d t a); [|reflexivity].
    rewrite (H eq_refl) in Hf. discriminate.
Qed.

Lemma Fixer_onSubscribe_cases (text : list N) (range : nat * nat)
    (st : state) (n : node) :
  Fixer.onSubscribe text range st n =
  match callee n with
  | None => TypeError
  | Some c =>
      match object c with
      | Some p =>
          if isPipeCall p then
            match some (FixableRule.isTakeOperator (takeUntilDestroyedAliases st)
                          (rxjsTakeOperatorAliases st)) (argumentsOf p) with
            | Normal true => Normal []
            | Normal false =>
                Normal [Fixer.mkDiagnostic n messageId (Fixer.fixPipe p range)]
            | TypeError => TypeError
            end
          else Normal [Fixer.mkDiagnostic n messageId (Fixer.fixNoPipe text range)]
      | None => Normal [Fixer.mkDiagnostic n messageId (Fixer.fixNoPipe text range)]
      end
  end.
Proof.
  unfold Fixer.onSubscribe.
  destruct (callee n) as [c|]; cbn; [|reflexivity].
  rewrite findPipeCallBeforeSubscribe_eq. cbn.
  destruct (object c) as [p|]; [|reflexivity].
  destruct (isPipeCall p); [|reflexivity].
  rewrite FixableRule_checkForTakeOperatorsInPipe_eq. cbn.
  destruct (some _ _) as [[|]|]; reflexivity.
Qed.

(** X8: on names written in Latin-1, the rule with a fixer accepts
    whatever the rule file accepts: when the classifier of the rule file
    returns true so does the classifier that lower-cases names, a site
    the rule file does not report is not reported by the rule with a
    fixer, and a site the rule with a fixer reports is reported by the
    rule file. *)
Theorem fixable_rule_accepts_more
    (text : list N) (range : nat * nat) (st : state) (n : node)
    (pipeCall : value) (d t : gset string) :
  (checkForTakeOperatorsInPipe pipeCall d t = Normal true ->
   FixableRule.checkForTakeOperatorsInPipe pipeCall d t = Normal true) /\
  (onSubscribe st n = Normal [] ->
   Fixer.onSubscribe text range st n = Normal []) /\
  (forall ds, Fixer.onSubscribe text range st n = Normal ds -> ds <> [] ->
   onSubscribe st n = Normal [report n]).
Proof.
  split; [|split].
  - rewrite checkForTakeOperatorsInPipe_some, FixableRule_checkForTakeOperatorsInPipe_eq.
    apply some_mono; intros a; apply FixableRule_pointwise.
  - rewrite onSubscribe_cases, Fixer_onSubscribe_cases.
    destruct (callee n) as [c|]; [|discriminate].
    destruct (object c) as [p|]; [|discriminate].
    destruct (isPipeCall p); [|discriminate].
    destruct (some (isTakeOperator _ _) _) as [[|]|] eqn:Hs; try discriminate.
    intros _.
    rewrite (some_mono _ (FixableRule.isTakeOperator _ _) _
               (fun a => proj1 (FixableRule_pointwise _ _ a))
               (fun a => proj1 (proj2 (FixableRule_pointwise _ _ a))) Hs).
    reflexivity.
  - intros ds. rewrite onSubscribe_cases, Fixer_onSubscribe_cases.
    destruct (callee n) as [c|]; [|discriminate].
    destruct (object c) as [p|]; [|reflexivity].
    destruct (isPipeCall p); [|reflexivity].
    destruct (some (FixableRule.isTakeOperator _ _) _) as [[|]|] eqn:Hs.
    + intros [= <-] Hne. contradiction.
    + intros _ _.
      rewrite (some_false_transfer _ (isTakeOperator _ _) _
                 (fun a => proj2 (proj2 (FixableRule_pointwise _ _ a))) Hs).
      reflexivity.
    + discriminate.
Qed.

Lemma OriginalRule_pointwise (d t : gset string) (a : node) :
  (OriginalRule.isTakeUntilDestroyed d a = Normal true ->
   isTakeOperator d t a = Normal true) /\
  (OriginalRule.isTakeUntilDestroyed d a = Normal false ->
   exists b, isTakeOperator d t a = Normal b) /\
  (isTakeOperator d t a = Normal false ->
   OriginalRule.isTakeUntilDestroyed d a = Normal false).
Proof.
  rewrite isTakeOperator_nameless_eq, OriginalRule_isTakeUntilDestroyed_eq.
  destruct (nameless a); [repeat split; discriminate|].
  assert (H : matchesOriginalRule d a = true -> matchesRule d t a = true).
  { intros Hm. apply (matchesRule_mono d ∅ d t a); [reflexivity | | ].
    - apply empty_subseteq.
    - apply matchesOriginalRule_matchesRule, Hm. }
  repeat split.
  - intros [= Hm]. rewrite (H Hm). reflexivity.
  - eauto.
  - intros [= Hf]. destruct (matchesOriginalRule d a); [|reflexivity].
    rewrite (H eq_refl) in Hf. discriminate.
Qed.

Lemma OriginalRule_agrees_without_take (d : gset string) (a : node) :
  (forall x, type a = "Identifier" -> name a = Some x -> str_includes x "take" = false) ->
  OriginalRule.isTakeUntilDestroyed d a = isTakeOperator d ∅ a.
Proof.
  intros Hno.
  rewrite isTakeOperator_nameless_eq, OriginalRule_isTakeUntilDestroyed_eq.
  destruct (nameless a); [reflexivity|]. f_equal.
  unfold matchesOriginalRule, matchesRule. f_equal. f_equal.
  unfold originalHeuristic, heuristicName.
  destruct (String.eqb_spec (type a) "Identifier") as [Hty|_]; [cbn|reflexivity].
  destruct (name a) as [x|] eqn:Hx; [|reflexivity].
  unfold operatorLikeName. fold (originalName x).
  rewrite (Hno x Hty eq_refl). rewrite orb_false_r. reflexivity.
Qed.

(** X9: the function the rule file keeps for backward compatibility
    accepts every pipe call that the original
    [checkForTakeUntilDestroyedInPipe] accepted, and returns the same as
    the original whenever no bare identifier among the arguments has
    ["take"] in its name; on a bare identifier [takeHandler] the two
    differ. *)
Theorem legacy_function_extends_original (pipeCall : value) (A : gset string) :
  (OriginalRule.checkForTakeUntilDestroyedInPipe pipeCall A = Normal true ->
   checkForTakeUntilDestroyedInPipe pipeCall A = Normal true) /\
  ((forall a x, In a (argumentsOfValue pipeCall) ->
      type a = "Identifier" -> name a = Some x -> str_includes x "take" = false) ->
   OriginalRule.checkForTakeUntilDestroyedInPipe pipeCall A
   = checkForTakeUntilDestroyedInPipe pipeCall A) /\
  (OriginalRule.checkForTakeUntilDestroyedInPipe
     (Some (pipeOf this_observable [Identifier "takeHandler"])) A = Normal false /\
   checkForTakeUntilDestroyedInPipe
     (Some (pipeOf this_observable [Identifier "takeHandler"])) A = Normal true).
Proof.
  unfold checkForTakeUntilDestroyedInPipe.
  rewrite checkForTakeOperatorsInPipe_some,
    OriginalRule_checkForTakeUntilDestroyedInPipe_eq.
  split; [|split].
  - apply some_mono; intros a; apply OriginalRule_pointwise.
  - intros Hno. apply some_ext. intros a Ha.
    apply OriginalRule_agrees_without_take. intros x. apply (Hno a x Ha).
  - rewrite checkForTakeOperatorsInPipe_some,
      OriginalRule_checkForTakeUntilDestroyedInPipe_eq.
    cbn [argumentsOfValue argumentsOf pipeOf CallExpression arguments some].
    rewrite OriginalRule_isTakeUntilDestroyed_eq, isTakeOperator_Identifier.
    split; reflexivity.
Qed.

(** ** The original rule and the rule file *)

Lemma some_isReturnStatement (ancestors : list node) :
  some OriginalRule.isReturnStatement ancestors
  = Normal (existsb (fun a => String.eqb (type a) "ReturnStatement") ancestors).
Proof.
  induction ancestors as [|a l IH]; cbn; [reflexivity|].
  destruct (String.eqb (type a) "ReturnStatement"); cbn; [reflexivity | exact IH].
Qed.

Lemma isSubscribeAncestor_eq (a : node) :
  OriginalRule.isSubscribeAncestor a =
  Normal (String.eqb (type a) "CallExpression"
          && match callee a with
             | Some c =>
                 String.eqb (type c) "MemberExpression"
                 && match property c with
                    | Some q => strictEq (name q) "subscribe"
                    | None => false
                    end
             | None => false
             end).
Proof.
  destruct a as [ty nm [c|] ob pr ar]; unfold OriginalRule.isSubscribeAncestor; cbn.
  - destruct (String.eqb ty "CallExpression"); cbn; [|reflexivity].
    destruct (String.eqb (type c) "MemberExpression"); cbn; [|reflexivity].
    destruct (property c) as [q|]; cbn; [|reflexivity].
    destruct (strictEq (name q) "subscribe"); reflexivity.
  - destruct (String.eqb ty "CallExpression"); reflexivity.
Qed.

Lemma some_Normal {A} (f : A -> completion bool) (g : A -> bool) (l : list A) :
  (forall a, f a = Normal (g a)) -> some f l = Normal (existsb g l).
Proof.
  intros H. induction l as [|a l IH]; cbn; [reflexivity|].
  rewrite H. destruct (g a); [reflexivity | exact IH].
Qed.

Lemma existsb_skipsUnder (ancestors : list node) :
  existsb skipsUnder ancestors =
  existsb (fun a => String.eqb (type a) "ReturnStatement") ancestors
  || existsb (fun a =>
       String.eqb (type a) "CallExpression"
       && match callee a with
          | Some c =>
              String.eqb (type c) "MemberExpression"
              && match property c with
                 | Some q => strictEq (name q) "subscribe"
                 | None => false
                 end
          | None => false
          end) ancestors.
Proof.
  induction ancestors as [|a l IH]; cbn; [reflexivity|].
  rewrite IH. unfold skipsUnder.
  destruct (String.eqb (type a) "ReturnStatement"); cbn; [reflexivity|].
  destruct (_ && _); cbn; [rewrite orb_true_r|]; reflexivity.
Qed.

Lemma OriginalRule_onSubscribe_cases (d : gset string) (ancestors : list node) (n : node) :
  OriginalRule.onSubscribe d ancestors n =
  if existsb skipsUnder ancestors then Normal []
  else
    match callee n with
    | None => TypeError
    | Some c =>
        match object c with
        | Some p =>
            if isPipeCall p then
              match some (OriginalRule.isTakeUntilDestroyed d) (argumentsOf p) with
              | Normal true => Normal []
              | Normal false => Normal [report n]
              | TypeError => TypeError
              end
            else Normal [report n]
        | None => Normal [report n]
        end
    end.
Proof.
  unfold OriginalRule.onSubscribe, OriginalRule.isInsideSubscriptionCallback.
  rewrite some_isReturnStatement, existsb_skipsUnder. cbn.
  destruct (existsb _ ancestors); cbn; [reflexivity|].
  rewrite (some_Normal _ _ ancestors isSubscribeAncestor_eq). cbn.
  destruct (existsb _ ancestors); cbn; [reflexivity|].
  destruct (callee n) as [c|]; cbn; [|reflexivity].
  rewrite findPipeCallBeforeSubscribe_eq. cbn.
  destruct (object c) as [p|]; [|reflexivity].
  destruct (isPipeCall p); [|reflexivity].
  rewrite OriginalRule_checkForTakeUntilDestroyedInPipe_eq. cbn.
  destruct (some _ _) as [[|]|]; reflexivity.
Qed.

(** X10: the original rule reports nothing for a subscribe call that has
    a [return] statement or a [.subscribe(...)] call among its
    ancestors, whatever the call looks like and without failing; for
    every other site, whenever the rule file reports it the original
    rule, run with the same destroy aliases, reports it as well; and the
    import handler of the original rule keeps the destroy aliases equal
    to those of the rule file. *)
Theorem original_rule_reports_what_rule_reports
    (st : state) (ancestors : list node) (n : node) :
  (existsb skipsUnder ancestors = true ->
   OriginalRule.onSubscribe (takeUntilDestroyedAliases st) ancestors n = Normal []) /\
  (existsb skipsUnder ancestors = false ->
   onSubscribe st n = Normal [report n] ->
   OriginalRule.onSubscribe (takeUntilDestroyedAliases st) ancestors n
   = Normal [report n]) /\
  (forall imp,
     OriginalRule.ImportDeclaration (takeUntilDestroyedAliases st) imp
     = takeUntilDestroyedAliases (ImportDeclaration st imp)).
Proof.
  split; [|split].
  - intros Hs. rewrite OriginalRule_onSubscribe_cases, Hs. reflexivity.
  - intros Hs. rewrite OriginalRule_onSubscribe_cases, Hs, onSubscribe_cases.
    destruct (callee n) as [c|]; [|discriminate].
    destruct (object c) as [p|]; [|reflexivity].
    destruct (isPipeCall p); [|reflexivity].
    destruct (some (isTakeOperator _ _) _) as [[|]|] eqn:Hsome; try discriminate.
    intros _.
    rewrite (some_false_transfer _ (OriginalRule.isTakeUntilDestroyed _) _
               (fun a => proj2 (proj2 (OriginalRule_pointwise _ _ a))) Hsome).
    reflexivity.
  - reflexivity.
Qed.

(** ** The diagnostics of a pass *)

Lemma onSubscribe_at_most_one (st : state) (n : node) (ds : list diagnostic) :
  onSubscribe st n = Normal ds -> ds = [] \/ ds = [report n].
Proof.
  rewrite onSubscribe_cases.
  destruct (callee n) as [c|]; [|discriminate].
  destruct (object c) as [p|]; [|intros [= <-]; right; reflexivity].
  destruct (isPipeCall p); [|intros [= <-]; right; reflexivity].
  destruct (some _ _) as [[|]|]; [| |discriminate]; intros [= <-]; [left|right]; reflexivity.
Qed.

(** X11: the diagnostics of a traversal are reports on subscribe call
    sites that were visited, each site at most once and in visiting
    order, all with the message [missingTakeUntilDestroyed]; so there are
    never more diagnostics than subscribe call sites. *)
Theorem diagnostics_follow_sites
    (vs : list visited) (st st' : state) (ds : list diagnostic) :
  traverse st vs = Normal (st', ds) ->
  (exists ns, ds = map report ns /\ sublist ns (subscribeSites vs)) /\
  length ds <= length (subscribeSites vs) /\
  Forall (fun d => diag_messageId d = "missingTakeUntilDestroyed") ds.
Proof.
  intros Htr.
  assert (H : exists ns, ds = map report ns /\ sublist ns (subscribeSites vs)).
  { revert st st' ds Htr. induction vs as [|v vs IH]; intros st st' ds; cbn.
    - intros [= _ <-]. exists []. split; [reflexivity | constructor].
    - destruct (visit st v) as [[st1 ds1]|] eqn:Hv; cbn; [|discriminate].
      destruct (traverse st1 vs) as [[st2 ds2]|] eqn:Ht; cbn; [|discriminate].
      intros [= _ <-]. destruct (IH st1 st2 ds2 Ht) as (ns & -> & Hsub).
      destruct v as [imp|n]; cbn in Hv.
      + injection Hv as _ <-. exists ns. split; [reflexivity | exact Hsub].
      + destruct (isSubscribeCall n).
        * destruct (onSubscribe st n) as [l|] eqn:Hon; cbn in Hv; [|discriminate].
          injection Hv as _ <-.
          destruct (onSubscribe_at_most_one st n l Hon) as [-> | ->].
          -- exists ns. split; [reflexivity | apply sublist_cons, Hsub].
          -- exists (n :: ns). split; [reflexivity | apply sublist_skip, Hsub].
        * injection Hv as _ <-. exists ns. split; [reflexivity | exact Hsub]. }
  split; [exact H|]. destruct H as (ns & -> & Hsub). split.
  - rewrite length_map. apply sublist_length, Hsub.
  - apply Forall_forall. intros d Hd.
    apply list_elem_of_In, in_map_iff in Hd as (m & <- & _). reflexivity.
Qed.

(** ** The fixes only insert text *)

Lemma string_app_cons (c : ascii) (x y : string) :
  (String c x ++ y)%string = String c (x ++ y).
Proof. reflexivity. Qed.

Lemma slice_from_0 (text : list N) (b : nat) : Fixer.slice text 0 b = take b text.
Proof. unfold Fixer.slice. rewrite Nat.sub_0_r, drop_0. reflexivity. Qed.

Lemma slice_split (text : list N) (a b : nat) :
  a <= b ->
  Fixer.slice text 0 a ++ Fixer.slice text a b = Fixer.slice text 0 b.
Proof.
  intros Hab. rewrite !slice_from_0. unfold Fixer.slice.
  rewrite take_take_drop. f_equal. lia.
Qed.

Lemma slice_around (text : list N) (k : nat) :
  Fixer.slice text 0 k ++ Fixer.slice text k (length text) = text.
Proof.
  rewrite slice_from_0. unfold Fixer.slice.
  rewrite (take_ge (drop k text)) by (rewrite length_drop; lia).
  apply take_drop.
Qed.

(** X12: applying a fix of the rule with a fixer only inserts text.  When
    no pipe call is found, the text of the source is kept whole and
    [.pipe(takeUntilDestroyed())] is inserted right after the receiver;
    when a pipe call without operator is found, the text is kept whole
    and the operator call is inserted one code unit before the end of
    the pipe call, after a comma and a line break if the pipe call has
    arguments. *)
Theorem fixes_only_insert
    (text : list N) (a b : nat) (st : state) (n : node) :
  a < b -> b <= length text ->
  (is_Some (callee n) -> noPipeCall n ->
   exists f before after,
     Fixer.onSubscribe text (a, b) st n = Normal [Fixer.mkDiagnostic n messageId f] /\
     text = before ++ after /\
     before = Fixer.slice text 0 b /\
     Fixer.applyFix text f
     = before ++ Fixer.codeUnits ".pipe(takeUntilDestroyed())" ++ after) /\
  (forall p, isSubscribeCall n = true -> receiver n = Some p -> isPipeCall p = true ->
   FixableRule.checkForTakeOperatorsInPipe (Some p)
     (takeUntilDestroyedAliases st) (rxjsTakeOperatorAliases st) = Normal false ->
   exists f before after,
     Fixer.onSubscribe text (a, b) st n = Normal [Fixer.mkDiagnostic n messageId f] /\
     text = before ++ after /\
     before = Fixer.slice text 0 (b - 1) /\
     Fixer.applyFix text f
     = before
       ++ (if Fixer.hasArguments p
           then Fixer.codeUnits "," ++ Fixer.newline
                ++ Fixer.codeUnits "                            takeUntilDestroyed()"
           else Fixer.codeUnits "takeUntilDestroyed()")
       ++ after).
Proof.
  intros Hab Hb. split.
  - intros [c Hc] Hno.
    exists (Fixer.fixNoPipe text (a, b)), (Fixer.slice text 0 b),
           (Fixer.slice text b (length text)).
    split; [|split; [|split]].
    + rewrite Fixer_onSubscribe_cases, Hc.
      unfold noPipeCall, receiver in Hno. rewrite Hc in Hno.
      destruct (object c) as [p|]; [|reflexivity].
      rewrite (Hno p eq_refl). reflexivity.
    + symmetry. apply slice_around.
    + reflexivity.
    + unfold Fixer.applyFix, Fixer.fixNoPipe, Fixer.replaceText, Fixer.getText.
      cbn [Fixer.fix_range Fixer.fix_text fst snd].
      rewrite !Nat2Z.id, <- (slice_split text a b) by lia.
      rewrite <- !app_assoc. reflexivity.
  - intros p Hsub Hr Hp Hcheck.
    exists (Fixer.fixPipe p (a, b)), (Fixer.slice text 0 (b - 1)),
           (Fixer.slice text (b - 1) (length text)).
    split; [|split; [|split]].
    + rewrite Fixer_onSubscribe_cases.
      destruct (isSubscribeCall_callee n Hsub) as [c Hc]. rewrite Hc.
      unfold receiver in Hr. rewrite Hc in Hr. rewrite Hr, Hp.
      rewrite FixableRule_checkForTakeOperatorsInPipe_eq in Hcheck. cbn in Hcheck.
      rewrite Hcheck. reflexivity.
    + symmetry. apply slice_around.
    + reflexivity.
    + unfold Fixer.applyFix, Fixer.fixPipe, Fixer.insertTextBeforeRange. cbn [snd fst].
      assert (Hz : Z.to_nat (Z.of_nat b - 1) = b - 1) by lia.
      destruct (Fixer.hasArguments p); cbn [negb Fixer.fix_range Fixer.fix_text fst snd];
        rewrite Hz; reflexivity.
Qed.

(** ** Two passes on one store *)

(** X13: the sets of a pass and the sets that a later [create] allocates
    are different objects: the import handler of either pass leaves the
    alias sets of the other as they are, so aliases cannot leak from one
    file to the next even if the two passes are interleaved. *)
Theorem passes_do_not_share_sets
    (h : list (gset string)) (c1 : Store.closure) (imp : importDeclaration) :
  Store.valid c1 h ->
  let h' := fst (Store.create h) in
  let c2 := snd (Store.create h) in
  Store.valid c1 h' /\
  Store.valid c2 h' /\
  Store.view c1 h' = Store.view c1 h /\
  Store.view c2 (Store.ImportDeclaration c1 h' imp) = create /\
  Store.view c1 (Store.ImportDeclaration c2 h' imp) = Store.view c1 h.
Proof.
  intros Hv1 h' c2.
  destruct (Store_create_fresh h) as (Hview & Hv2 & La & Lb & Lc & Hold).
  fold h' c2 in Hview, Hv2, La, Lb, Lc, Hold.
  pose proof Hv1 as (Ha & Hb & Hc & Hab & Hac & Hbc & Hops).
  pose proof Hv2 as (Ha2 & _).
  assert (Hv1' : Store.valid c1 h').
  { unfold Store.valid. rewrite (Hold _ Hb). repeat split; try assumption; lia. }
  assert (Hsame : Store.view c1 h' = Store.view c1 h).
  { unfold Store.view. rewrite (Hold _ Ha), (Hold _ Hc). reflexivity. }
  split; [exact Hv1'|]. split; [exact Hv2|]. split; [exact Hsame|]. split.
  - destruct (Store_ImportDeclaration_view c1 h' imp Hv1') as (_ & _ & Hfr).
    rewrite <- Hview. unfold Store.view.
    rewrite !Hfr by lia. reflexivity.
  - destruct (Store_ImportDeclaration_view c2 h' imp Hv2) as (_ & _ & Hfr).
    rewrite <- Hsame. unfold Store.view.
    rewrite !Hfr by lia. reflexivity.
Qed.

(** ** The further properties on concrete programs *)

Lemma pass_aliases_exactly_witness :
  "tud" ∈ takeUntilDestroyedAliases (ImportDeclaration create import_tud) /\
  ~ "tud" ∈ rxjsTakeOperatorAliases (ImportDeclaration create import_tud).
Proof.
  destruct (pass_aliases_exactly [VisitImport import_tud]
              (ImportDeclaration create import_tud) [] "tud" eq_refl) as [Hd Ht].
  split.
  - apply Hd. right. exists import_tud. split; [left; reflexivity|].
    split; [reflexivity|].
    exists (ImportSpecifier "takeUntilDestroyed" "tud").
    split; [left; reflexivity | apply binds_ImportSpecifier].
  - intros H. apply Ht in H as [H|(imp & [<-|[]] & [H|H] & _)].
    + cbn in H. intuition discriminate.
    + discriminate H.
    + discriminate H.
Defined.

Lemma canonical_operators_always_accepted_witness :
  onSubscribe create (site_with (call "take" [Literal])) = Normal [].
Proof.
  apply (canonical_operators_always_accepted [] create [] "take"
           (site_with (call "take" [Literal]))
           (pipeOf this_observable [map_f; call "take" [Literal]])
           (call "take" [Literal]) [map_f] []).
  - reflexivity.
  - right; right; right; left; reflexivity.
  - reflexivity.
  - reflexivity.
  - reflexivity.
  - reflexivity.
  - constructor; [apply identOk_call | constructor].
  - left. apply directCallTo_call.
Defined.

Lemma aliased_member_call_accepted_witness :
  onSubscribe (ImportDeclaration create import_tud)
    (site_with (CallExpression (MemberExpression (Identifier "ops") (Identifier "tud")) []))
  = Normal [].
Proof.
  apply (aliased_member_call_accepted create (ImportDeclaration create import_tud)
           import_tud "tud" [] []
           (site_with (CallExpression
                         (MemberExpression (Identifier "ops") (Identifier "tud")) []))
           (pipeOf this_observable
              [map_f; CallExpression
                        (MemberExpression (Identifier "ops") (Identifier "tud")) []])
           (CallExpression (MemberExpression (Identifier "ops") (Identifier "tud")) [])
           [map_f] []).
  - left. split; [reflexivity|].
    exists (ImportSpecifier "takeUntilDestroyed" "tud").
    split; [left; reflexivity | apply binds_ImportSpecifier].
  - reflexivity.
  - reflexivity.
  - reflexivity.
  - reflexivity.
  - reflexivity.
  - constructor; [apply identOk_call | constructor].
  - split; [reflexivity|]. eexists _, _. repeat split; reflexivity.
Defined.

Lemma fixable_rule_accepts_more_witness :
  Fixer.onSubscribe [] (0, 0) create (site_with (Identifier "takeHandler")) = Normal [].
Proof.
  destruct (fixable_rule_accepts_more [] (0, 0) create
              (site_with (Identifier "takeHandler")) None ∅ ∅) as (_ & H & _).
  apply H. vm_compute. reflexivity.
Defined.

Lemma legacy_function_extends_original_witness :
  checkForTakeUntilDestroyedInPipe
    (Some (pipeOf this_observable [map_f; Identifier "destroyRef"])) ∅ = Normal true.
Proof.
  destruct (legacy_function_extends_original
              (Some (pipeOf this_observable [map_f; Identifier "destroyRef"])) ∅)
    as (H & _ & _).
  apply H. vm_compute. reflexivity.
Defined.

Lemma original_rule_reports_what_rule_reports_witness :
  OriginalRule.onSubscribe (takeUntilDestroyedAliases create) [] site_plain
  = Normal [report site_plain] /\
  OriginalRule.onSubscribe (takeUntilDestroyedAliases create)
    [mkNode "ReturnStatement" None None None None None] site_plain
  = Normal [].
Proof.
  destruct (original_rule_reports_what_rule_reports create [] site_plain)
    as (_ & H & _).
  destruct (original_rule_reports_what_rule_reports create
              [mkNode "ReturnStatement" None None None None None] site_plain)
    as (H' & _ & _).
  split.
  - apply H; [reflexivity | vm_compute; reflexivity].
  - apply H'. reflexivity.
Defined.

Lemma diagnostics_follow_sites_witness :
  exists ns, [report site_plain] = map report ns /\
             sublist ns (subscribeSites [VisitNode site_plain]).
Proof.
  destruct (diagnostics_follow_sites [VisitNode site_plain]
              create create [report site_plain]) as (H & _ & _).
  - vm_compute. reflexivity.
  - exact H.
Defined.

Lemma fixes_only_insert_witness :
  let text := 233%N :: Fixer.codeUnits ".subscribe(cb)" in
  let n := subscribeOf (Identifier (String (ascii_of_nat 233) "")) [Identifier "cb"] in
  exists f,
    Fixer.onSubscribe text (0, 1) create n = Normal [Fixer.mkDiagnostic n messageId f] /\
    Fixer.applyFix text f
    = 233%N :: Fixer.codeUnits ".pipe(takeUntilDestroyed()).subscribe(cb)".
Proof.
  cbv zeta.
  destruct (fixes_only_insert (233%N :: Fixer.codeUnits ".subscribe(cb)") 0 1 create
              (subscribeOf (Identifier (String (ascii_of_nat 233) "")) [Identifier "cb"]))
    as (H & _).
  - lia.
  - cbn. lia.
  - destruct H as (f & before & after & Hon & Htext & Hbefore & Happly).
    + cbn. eauto.
    + intros p Hp. injection Hp as <-. reflexivity.
    + exists f. split; [exact Hon|].
      rewrite Happly, Hbefore. rewrite Hbefore in Htext.
      cbn in Htext. injection Htext as <-. reflexivity.
Defined.

Lemma passes_do_not_share_sets_witness :
  Store.view (snd (Store.create (fst (Store.create []))))
    (Store.ImportDeclaration (snd (Store.create []))
       (fst (Store.create (fst (Store.create [])))) import_tud)
  = create.
Proof.
  destruct (passes_do_not_share_sets (fst (Store.create [])) (snd (Store.create []))
              import_tud) as (_ & _ & _ & H & _).
  - destruct (Store_create_fresh []) as (_ & Hv & _). exact Hv.
  - exact H.
Defined.

(** ** Rule 3 in terms of the name *)

Lemma prefix_app_iff (s a : string) :
  String.prefix a s = true <-> exists post, s = (a ++ post)%string.
Proof.
  revert a. induction s as [|c s IH]; intros [|b a]; cbn.
  - split; [exists ""; reflexivity | reflexivity].
  - split; [discriminate | intros [post H]; discriminate H].
  - split; [exists (String c s); reflexivity | reflexivity].
  - destruct (ascii_dec b c) as [->|Hne].
    + rewrite IH. split; intros [post H]; exists post.
      * rewrite string_app_cons, H. reflexivity.
      * rewrite string_app_cons in H. injection H as H. exact H.
    + split; [discriminate|]. intros [post H].
      rewrite string_app_cons in H. injection H as H _. congruence.
Qed.

Lemma str_includes_iff (s sub : string) :
  str_includes s sub = true <-> exists pre post, s = (pre ++ sub ++ post)%string.
Proof.
  induction s as [|c s IH]; cbn [str_includes].
  - rewrite orb_false_r, prefix_app_iff. split.
    + intros [post H]. exists "", post. exact H.
    + intros ([|b pre] & post & H).
      * exists post. exact H.
      * rewrite string_app_cons in H. discriminate H.
  - rewrite orb_true_iff, prefix_app_iff, IH. split.
    + intros [[post H]|(pre & post & H)].
      * exists "", post. exact H.
      * exists (String c pre), post. rewrite string_app_cons, H. reflexivity.
    + intros ([|b pre] & post & H).
      * left. exists post. exact H.
      * right. rewrite string_app_cons in H. injection H as _ H.
        exists pre, post. exact H.
Qed.

(** X14: whatever the alias sets hold, the callback of the classifier
    answers true on a bare identifier exactly when its name has one of
    the five strings [destroy], [Destroy], [unsubscribe], [Unsubscribe],
    [take] somewhere inside it, at any position. *)
Theorem bare_identifier_accepted_iff (d t : gset string) (x : string) :
  isTakeOperator d t (Identifier x) = Normal true <->
  exists w pre post,
    In w ["destroy"; "Destroy"; "unsubscribe"; "Unsubscribe"; "take"] /\
    x = (pre ++ w ++ post)%string.
Proof.
  rewrite isTakeOperator_Identifier. unfold operatorLikeName. split.
  - intros [= H].
    repeat (apply orb_true_iff in H as [H|H]);
      apply str_includes_iff in H as (pre & post & H);
      eexists _, pre, post; (split; [|exact H]); cbn; tauto.
  - intros (w & pre & post & Hw & ->). f_equal.
    assert (Hinc : str_includes (pre ++ w ++ post) w = true).
    { apply str_includes_iff. eauto. }
    cbn in Hw. destruct Hw as [<-|[<-|[<-|[<-|[<-|[]]]]]]; rewrite Hinc;
      rewrite ?orb_true_r; reflexivity.
Qed.

(** ** The verdict against the three specified rules *)

Lemma matchesRule_matchesSpecifiedRule (d t : gset string) (a : node) :
  matchesRule d t a = true -> matchesSpecifiedRule d t a = true.
Proof.
  unfold matchesRule, matchesSpecifiedRule. intros H.
  apply orb_true_iff in H as [H|H]; [apply orb_true_iff in H as [H|H]|].
  - rewrite H. reflexivity.
  - unfold heuristicName in H. unfold heuristicNameIgnoringCase.
    apply andb_true_iff in H as [Hty H]. rewrite Hty. cbn.
    destruct (name a) as [x|]; [|discriminate].
    rewrite (operatorLikeName_containsIgnoringCase x H). apply orb_true_r.
  - rewrite H, orb_true_r. reflexivity.
Qed.

Lemma matchesSpecifiedRule_Identifier (d t : gset string) (x : string) :
  matchesSpecifiedRule d t (Identifier x) = containsIgnoringCase x.
Proof. reflexivity. Qed.

Lemma operatorLikeName_firstTake : operatorLikeName "firstTake" = false.
Proof. vm_compute. reflexivity. Qed.

Lemma containsIgnoringCase_firstTake : containsIgnoringCase "firstTake" = true.
Proof. vm_compute. reflexivity. Qed.

Lemma checkForTakeOperatorsInPipe_firstTake (d t : gset string) :
  checkForTakeOperatorsInPipe
    (Some (pipeOf this_observable [Identifier "firstTake"])) d t = Normal false.
Proof.
  rewrite checkForTakeOperatorsInPipe_eq.
  cbn [pipeOf CallExpression argumentsOf arguments some].
  rewrite isTakeOperator_Identifier, operatorLikeName_firstTake. reflexivity.
Qed.

Lemma onSubscribe_firstTake (st : state) :
  onSubscribe st site_firstTake = Normal [report site_firstTake].
Proof.
  rewrite onSubscribe_cases.
  cbn [site_firstTake subscribeOf pipeOf CallExpression MemberExpression
       callee object argumentsOf arguments some].
  change (isPipeCall (mkNode "CallExpression" None
            (Some (mkNode "MemberExpression" None None (Some this_observable)
                     (Some (Identifier "pipe")) None))
            None None (Some [Identifier "firstTake"]))) with true.
  cbn iota.
  rewrite isTakeOperator_Identifier, operatorLikeName_firstTake. reflexivity.
Qed.

Lemma onSubscribe_specified (st : state) (n : node) :
  isSubscribeCall n = true ->
  Forall identOk (pipeArguments n) ->
  (noPipeCall n \/ pipeWithoutOperator st n -> onSubscribe st n = Normal [report n]) /\
  (onSubscribe st n = Normal [report n] \/ onSubscribe st n = Normal []).
Proof.
  intros Hsub Hok. pose proof (isSubscribeCall_callee n Hsub) as Hc. split.
  - intros [Hno|(p & Hr & Hp & Hall)].
    + apply onSubscribe_noPipeCall; assumption.
    + rewrite (onSubscribe_verdict st n p Hc Hr Hp
                 (Forall_identOk_pipeArguments n p Hr Hok)).
      assert (Hex : existsb (matchesRule (takeUntilDestroyedAliases st)
                               (rxjsTakeOperatorAliases st)) (argumentsOf p) = false).
      { apply existsb_false_iff. intros a Ha. specialize (Hall a Ha).
        destruct (matchesRule _ _ a) eqn:Hm; [|reflexivity].
        rewrite (matchesRule_matchesSpecifiedRule _ _ a Hm) in Hall. discriminate. }
      rewrite Hex. reflexivity.
  - destruct (receiver n) as [p|] eqn:Hr.
    + destruct (isPipeCall p) eqn:Hp.
      * rewrite (onSubscribe_verdict st n p Hc Hr Hp
                   (Forall_identOk_pipeArguments n p Hr Hok)).
        destruct (existsb _ _); [right|left]; reflexivity.
      * left. apply onSubscribe_noPipeCall; [exact Hc|].
        intros q Hq. rewrite Hr in Hq. injection Hq as <-. exact Hp.
    + left. apply onSubscribe_noPipeCall; [exact Hc|].
      intros q Hq. rewrite Hr in Hq. discriminate.
Qed.

(** C4: the site [this.observable.pipe(firstTake).subscribe(...)] has a
    pipe call whose argument matches the third specified rule, so
    neither condition of the claim holds for it, and yet the handler
    reports the one diagnostic, in every state.  The rest of the claim
    holds at every subscribe call site: the handler reports one
    diagnostic or nothing; it reports one whenever there is no pipe call
    or no argument matches a specified rule; when it reports nothing an
    argument matches a specified rule; and a site without pipe call is
    reported whatever the arguments of [subscribe] are. *)
Theorem C4_reported_although_an_argument_matches (st : state) :
  (isSubscribeCall site_firstTake = true /\
   Forall identOk (pipeArguments site_firstTake) /\
   ~ (noPipeCall site_firstTake \/ pipeWithoutOperator st site_firstTake) /\
   onSubscribe st site_firstTake
   = Normal [mkDiagnostic site_firstTake "missingTakeUntilDestroyed"]) /\
  (forall n, isSubscribeCall n = true -> Forall identOk (pipeArguments n) ->
     (onSubscribe st n = Normal [mkDiagnostic n "missingTakeUntilDestroyed"]
      \/ onSubscribe st n = Normal []) /\
     (noPipeCall n \/ pipeWithoutOperator st n ->
      onSubscribe st n = Normal [mkDiagnostic n "missingTakeUntilDestroyed"]) /\
     (onSubscribe st n = Normal [] ->
      ~ (noPipeCall n \/ pipeWithoutOperator st n)) /\
     (noPipeCall n -> forall args,
        onSubscribe st (withArguments n args)
        = Normal [mkDiagnostic (withArguments n args) "missingTakeUntilDestroyed"])).
Proof.
  split.
  - split; [reflexivity|]. split.
    { constructor; [intros _; cbn; eauto | constructor]. }
    split; [|apply onSubscribe_firstTake].
    intros [Hno | (p & Hr & _ & Hall)].
    + specialize (Hno _ eq_refl). discriminate Hno.
    + injection Hr as <-.
      specialize (Hall (Identifier "firstTake") (or_introl eq_refl)).
      rewrite matchesSpecifiedRule_Identifier, containsIgnoringCase_firstTake in Hall.
      discriminate Hall.
  - intros n Hsub Hok.
    destruct (onSubscribe_specified st n Hsub Hok) as [Himp Hcases].
    split; [exact Hcases|]. split; [exact Himp|]. split.
    + intros Hnone Hcond. rewrite (Himp Hcond) in Hnone. discriminate Hnone.
    + intros Hno args.
      apply (onSubscribe_noPipeCall st (withArguments n args));
        [exact (isSubscribeCall_callee n Hsub) | exact Hno].
Qed.

Lemma C4_witness :
  onSubscribe create site_plain
  = Normal [mkDiagnostic site_plain "missingTakeUntilDestroyed"].
Proof.
  destruct (C4_reported_although_an_argument_matches create) as [_ H].
  destruct (H site_plain) as (_ & Himp & _).
  - reflexivity.
  - constructor.
  - apply Himp. left. intros p Hp. injection Hp as <-. reflexivity.
Defined.

(** C5: the pipe call of [this.observable.pipe(firstTake).subscribe(...)]
    has an argument that matches the third specified rule, and yet the
    classifier returns false on it and the site is reported, in every
    state. *)
Theorem C5_matching_argument_yet_reported (st : state) :
  let a := Identifier "firstTake" in
  let p := pipeOf this_observable [a] in
  isSubscribeCall site_firstTake = true /\
  receiver site_firstTake = Some p /\
  isPipeCall p = true /\
  arguments p = Some [a] /\
  matchesSpecifiedRule (takeUntilDestroyedAliases st) (rxjsTakeOperatorAliases st) a
  = true /\
  checkForTakeOperatorsInPipe (Some p)
    (takeUntilDestroyedAliases st) (rxjsTakeOperatorAliases st) = Normal false /\
  onSubscribe st site_firstTake = Normal [report site_firstTake].
Proof.
  cbv zeta. repeat apply conj;
    first [ apply checkForTakeOperatorsInPipe_firstTake
          | apply onSubscribe_firstTake
          | reflexivity ].
Qed.
